(** * sipClient: call-session lifecycle and media-track reconciliation

    A shallow embedding of [src/lib/sipClient.ts]: the module-level
    variables ([ua], [currentSession], [isOnHold]), the objects they point
    to (sessions, peer connections, senders, media tracks) and the exported
    call-control operations.

    Conventions of the embedding.
    - JavaScript objects that are mutated through several references
      (sessions and media tracks) live in a store: a list indexed by the
      object's identity.  A fresh object is appended, so its identity is the
      length of the store at allocation time.
    - Calls into the SIP engine and the browser ([getUserMedia],
      [replaceTrack], [bye], ...) are recorded, in program order, in the
      [trace] of the world.  What the engine or the browser answers is
      supplied by an environment record.
    - [console.log] output is not part of the model.
    - An [async] function is run to completion with the answers of the
      environment; nothing else is interleaved at its [await] points. *)

From Stdlib Require Import Ascii String NArith Lia.
From stdpp Require Import base option list strings pretty.

Local Open Scope string_scope.
Local Open Scope list_scope.

(** ** Media objects *)

Inductive TrackKind := Audio | Video.

Inductive ReadyState := Live | Ended.

(** The values of [MediaTrackSettings.facingMode]. *)
Inductive FacingMode := FacingUser | FacingEnvironment | FacingLeft | FacingRight.

Record MediaStreamTrack := mkTrack {
  kind : TrackKind;
  enabled : bool;
  readyState : ReadyState;
  muted : bool;
  facingMode : option FacingMode   (* getSettings().facingMode *)
}.

(** [encodings] is [getParameters().encodings]; the [active] member of an
    encoding is [undefined], [true] or [false].  A sender whose parameters
    cannot be read, or have no encodings, has the empty list. *)
Record RTCRtpSender := mkSender {
  track : option nat;
  encodings : list (option bool)
}.

Record RTCPeerConnection := mkPC {
  senders : list RTCRtpSender;
  connectionState : string;
  iceConnectionState : string;
  signalingState : string;
  localDescription : option string;    (* localDescription.sdp *)
  remoteDescription : option string    (* remoteDescription.sdp *)
}.

Record SessionDescriptionHandler := mkSDH {
  peerConnection : option RTCPeerConnection
}.

(** ** Sessions *)

Inductive SessionState :=
  Initial | Establishing | Established | Terminating | Terminated.

(** [session instanceof Inviter] / [session instanceof Invitation]. *)
Inductive SessionClass := Inviter | Invitation.

(** The listeners the module registers on [session.stateChange]. *)
Inductive Listener :=
| SdpInterceptListener                         (* makeCall, wraps sdh.send *)
| AddTracksListener (stream : list nat)        (* makeCall / acceptCall *)
| EstablishedListener (withVideo : bool)       (* makeCall / acceptCall *)
| HangupListener.                              (* hangupCall *)

Record Session := mkSession {
  sessionClass : SessionClass;
  state : SessionState;
  sessionDescriptionHandler : option SessionDescriptionHandler;
  stateChange : list Listener
}.

(** ** Errors and calls to the outside *)

Inductive JsError :=
| DOMException (name message : string)
| Error (message : string)
| TypeError (message : string).

Inductive VideoConstraint :=
| VideoFlag (b : bool)
| VideoFacing (m : FacingMode).

(** A parsed SIP URI, identified by the text it was parsed from. *)
Record URI := mkURI { uriText : string }.

Inductive Effect :=
| GetUserMedia (audio : bool) (video : VideoConstraint)
| NewInviter (session : nat) (target : URI) (withVideo : bool)
| Invite (session : nat)
| Accept (session : nat) (withVideo : bool)
| Bye (session : nat)
| Cancel (session : nat)
| Reject (session : nat)
| SetParameters (sender : nat) (params : list (option bool))
| ReplaceTrack (session sender : nat) (newTrack : option nat)
| StopTrack (t : nat).

(** ** The module state *)

Record UserAgent := mkUA {
  configurationUri : option string   (* ua.configuration.uri?.toString() *)
}.

Record World := mkWorld {
  ua : option UserAgent;
  currentSession : option nat;
  isOnHold : bool;
  sessions : list Session;
  tracks : list MediaStreamTrack;
  trace : list Effect
}.

Definition setCurrentSession (c : option nat) (w : World) : World :=
  mkWorld (ua w) c (isOnHold w) (sessions w) (tracks w) (trace w).

Definition setIsOnHold (b : bool) (w : World) : World :=
  mkWorld (ua w) (currentSession w) b (sessions w) (tracks w) (trace w).

Definition setSessions (ss : list Session) (w : World) : World :=
  mkWorld (ua w) (currentSession w) (isOnHold w) ss (tracks w) (trace w).

Definition setTracks (ts : list MediaStreamTrack) (w : World) : World :=
  mkWorld (ua w) (currentSession w) (isOnHold w) (sessions w) ts (trace w).

Definition emit (es : list Effect) (w : World) : World :=
  mkWorld (ua w) (currentSession w) (isOnHold w) (sessions w) (tracks w)
          (trace w ++ es).

(** [track.enabled = b] *)
Definition setEnabled (b : bool) (t : MediaStreamTrack) : MediaStreamTrack :=
  mkTrack (kind t) b (readyState t) (muted t) (facingMode t).

(** [track.stop()] *)
Definition stopped (t : MediaStreamTrack) : MediaStreamTrack :=
  mkTrack (kind t) (enabled t) Ended (muted t) (facingMode t).

Definition isAudio (t : MediaStreamTrack) : bool :=
  match kind t with Audio => true | Video => false end.

Definition isVideo (t : MediaStreamTrack) : bool :=
  match kind t with Video => true | Audio => false end.

(** [session.stateChange.addListener(l)] *)
Definition addListener (l : Listener) (s : Session) : Session :=
  mkSession (sessionClass s) (state s) (sessionDescriptionHandler s)
            (stateChange s ++ [l]).

(** The session [currentSession] points to, when there is one. *)
Definition activeSession (w : World) : option Session :=
  match currentSession w with
  | Some sid => sessions w !! sid
  | None => None
  end.

(** [currentSession.sessionDescriptionHandler.peerConnection], when every
    link of the chain is there. *)
Definition activePC (w : World) : option RTCPeerConnection :=
  match activeSession w with
  | Some session =>
      match sessionDescriptionHandler session with
      | Some sdh => peerConnection sdh
      | None => None
      end
  | None => None
  end.

(** The track object a sender holds. *)
Definition senderTrack (ts : list MediaStreamTrack) (s : RTCRtpSender)
  : option MediaStreamTrack :=
  match track s with
  | Some tid => ts !! tid
  | None => None
  end.

(** [sender.track && sender.track.kind === 'audio'] *)
Definition holdsAudio (ts : list MediaStreamTrack) (s : RTCRtpSender) : bool :=
  match senderTrack ts s with
  | Some t => isAudio t
  | None => false
  end.

(** ** Mute, hold and video toggle

    The three operations run the same loop over [pc.getSenders()]:
    [if (sender.track && cond) sender.track.enabled = v]. *)

Definition enableSender (cond : MediaStreamTrack -> bool) (v : bool)
    (ts : list MediaStreamTrack) (s : RTCRtpSender) : list MediaStreamTrack :=
  match track s with
  | Some tid =>
      match ts !! tid with
      | Some t => if cond t then <[tid := setEnabled v t]> ts else ts
      | None => ts
      end
  | None => ts
  end.

Definition forEachSender (cond : MediaStreamTrack -> bool) (v : bool)
    (pc : RTCPeerConnection) (w : World) : World :=
  setTracks (foldl (enableSender cond v) (tracks w) (senders pc)) w.

Definition muteCall (mute : bool) (w : World) : bool * World :=
  match activeSession w with
  | None => (false, w)
  | Some session =>
      match sessionDescriptionHandler session with
      | Some sdh =>
          match peerConnection sdh with
          | Some pc => (true, forEachSender isAudio (negb mute) pc w)
          | None => (false, w)
          end
      | None => (false, w)
      end
  end.

(** [isOnHold] is assigned before [pc] is dereferenced: with a handler
    that has no peer connection, [pc.getSenders()] throws, the [catch]
    swallows it, and the flag stays written. *)
Definition holdCall (hold : bool) (w : World) : bool * World :=
  match activeSession w with
  | None => (false, w)
  | Some session =>
      match sessionDescriptionHandler session with
      | Some sdh =>
          let w1 := setIsOnHold hold w in
          match peerConnection sdh with
          | Some pc => (true, forEachSender (fun _ => true) (negb hold) pc w1)
          | None => (false, w1)
          end
      | None => (false, w)
      end
  end.

Definition toggleVideo (enable : bool) (w : World) : bool * World :=
  match activeSession w with
  | None => (false, w)
  | Some session =>
      match sessionDescriptionHandler session with
      | Some sdh =>
          match peerConnection sdh with
          | Some pc => (true, forEachSender isVideo enable pc w)
          | None => (false, w)
          end
      | None => (false, w)
      end
  end.

Definition isCallOnHold (w : World) : bool := isOnHold w.

Inductive CallState := Idle | InState (s : SessionState).

Definition getCallState (w : World) : CallState :=
  match activeSession w with
  | None => Idle
  | Some session => InState (state session)
  end.

(** ** Hang up *)

(** Run [f] on the session object [sid]. *)
Definition updateSession (sid : nat) (f : Session -> Session) (w : World)
  : World :=
  match sessions w !! sid with
  | Some s => setSessions (<[sid := f s]> (sessions w)) w
  | None => w
  end.

(** The signalling request [hangupCall] issues for a session. *)
Definition terminationRequest (sid : nat) (session : Session) : list Effect :=
  match state session with
  | Established => [Bye sid]
  | Initial =>
      match sessionClass session with
      | Inviter => [Cancel sid]
      | Invitation => [Reject sid]
      end
  | _ => []
  end.

Definition hangupCall (w : World) : World :=
  match currentSession w with
  | Some sid =>
      let w1 :=
        match sessions w !! sid with
        | Some session => emit (terminationRequest sid session) w
        | None => w
        end in
      let w2 := setCurrentSession None w1 in
      updateSession sid (addListener HangupListener) w2
  | None => w
  end.

(** ** Audio diagnostics *)

Inductive TrackInfo :=
| TrackEntry (index : nat) (kind : TrackKind) (enabled : bool)
             (readyState : ReadyState) (muted : bool) (fixed : bool)
| NoTrackEntry (index : nat).         (* { index, noTrack: true } *)

Record Diagnostics := mkDiagnostics {
  dConnectionState : string;
  dIceConnectionState : string;
  dSignalingState : string;
  dTracks : list TrackInfo;
  dLocalSdp : string;
  dRemoteSdp : string
}.

Record Report := mkReport {
  status : string;
  message : string;
  diagnostics : option Diagnostics;
  suggestions : option (list string)
}.

(** The locals of the [senders.forEach] loop, with the track store and the
    [setParameters] calls issued so far. *)
Record Inspection := mkInspection {
  iTracks : list MediaStreamTrack;
  trackInfo : list TrackInfo;
  fixedTracks : nat;
  hasAudioSender : bool;
  iEffects : list Effect
}.

(** [params.encodings.forEach]: every encoding with [active === false] is
    switched on in [params], which is then handed to [setParameters]. *)
Fixpoint activateEncodings (index : nat) (seen todo : list (option bool))
  : list Effect :=
  match todo with
  | [] => []
  | Some false :: rest =>
      SetParameters index (seen ++ Some true :: rest)
        :: activateEncodings index (seen ++ [Some true]) rest
  | e :: rest => activateEncodings index (seen ++ [e]) rest
  end.

Definition inspectSender (index : nat) (sender : RTCRtpSender)
    (acc : Inspection) : Inspection :=
  let acc1 :=
    match track sender with
    | Some tid =>
        match iTracks acc !! tid with
        | Some t =>
            let info fixed :=
              TrackEntry index (kind t) (enabled t) (readyState t) (muted t)
                         fixed in
            if isAudio t then
              if negb (enabled t) then
                mkInspection (<[tid := setEnabled true t]> (iTracks acc))
                             (trackInfo acc ++ [info true])
                             (S (fixedTracks acc)) true (iEffects acc)
              else
                mkInspection (iTracks acc) (trackInfo acc ++ [info false])
                             (fixedTracks acc) true (iEffects acc)
            else
              mkInspection (iTracks acc) (trackInfo acc ++ [info false])
                           (fixedTracks acc) (hasAudioSender acc)
                           (iEffects acc)
        | None =>
            mkInspection (iTracks acc) (trackInfo acc ++ [NoTrackEntry index])
                         (fixedTracks acc) (hasAudioSender acc) (iEffects acc)
        end
    | None =>
        mkInspection (iTracks acc) (trackInfo acc ++ [NoTrackEntry index])
                     (fixedTracks acc) (hasAudioSender acc) (iEffects acc)
    end in
  if holdsAudio (iTracks acc1) sender then
    mkInspection (iTracks acc1) (trackInfo acc1) (fixedTracks acc1)
                 (hasAudioSender acc1)
                 (iEffects acc1 ++ activateEncodings index [] (encodings sender))
  else acc1.

Fixpoint inspectSenders (index : nat) (ss : list RTCRtpSender)
    (acc : Inspection) : Inspection :=
  match ss with
  | [] => acc
  | s :: rest => inspectSenders (S index) rest (inspectSender index s acc)
  end.

(** [senders.filter(sender => sender.track && sender.track.kind === 'audio')] *)
Definition audioSenders (ts : list MediaStreamTrack) (ss : list RTCRtpSender)
  : list RTCRtpSender :=
  List.filter (holdsAudio ts) ss.

(** [pc.localDescription && pc.localDescription.sdp ? sdp : ''] *)
Definition sdpText (d : option string) : string :=
  match d with
  | Some sdp => sdp
  | None => ""
  end.

Definition serverSuggestions : list string :=
  [ "Ensure NAT traversal is properly configured on the server";
    "Check if the server is configured to allow audio in both directions";
    "Verify that the SIP server is not blocking or filtering RTP packets";
    "Check firewall settings to ensure RTP ports are open (typically 10000-20000)" ].

(** The analysis of the SDP direction lines only writes to the console; the
    SDP texts are copied into the report as they are.  The outer [catch],
    which turns an exception into an error report, is not reached: no
    statement outside the inner [try] blocks throws on these objects. *)
Definition debugAudioTracks (w : World) : Report * World :=
  match activeSession w with
  | None => (mkReport "error" "No active call" None None, w)
  | Some session =>
      match sessionDescriptionHandler session with
      | None =>
          (mkReport "error" "No sessionDescriptionHandler found" None None, w)
      | Some sdh =>
          match peerConnection sdh with
          | None => (mkReport "error" "No peerConnection found" None None, w)
          | Some pc =>
              let r := inspectSenders 0 (senders pc)
                         (mkInspection (tracks w) [] 0 false []) in
              let w' := emit (iEffects r) (setTracks (iTracks r) w) in
              let d := mkDiagnostics (connectionState pc)
                         (iceConnectionState pc) (signalingState pc)
                         (trackInfo r) (sdpText (localDescription pc))
                         (sdpText (remoteDescription pc)) in
              if (length (audioSenders (iTracks r) (senders pc)) =? 0)%nat then
                (mkReport "error" "No audio tracks found" (Some d) None, w')
              else
                (mkReport "success"
                   (if (0 <? fixedTracks r)%nat
                    then "Fixed " +:+ pretty (fixedTracks r) +:+ " audio tracks"
                    else "All audio tracks are properly configured")
                   (Some d) (Some serverSuggestions), w')
          end
      end
  end.

(** ** Target normalisation *)

(** [s.includes(c)] for a one-character needle. *)
Fixpoint includes (c : ascii) (s : string) : bool :=
  match s with
  | EmptyString => false
  | String a rest => if Ascii.eqb a c then true else includes c rest
  end.

(** [s.split(c)] for a one-character separator; never the empty list. *)
Fixpoint split (c : ascii) (s : string) : list string :=
  match s with
  | EmptyString => [EmptyString]
  | String a rest =>
      if Ascii.eqb a c then EmptyString :: split c rest
      else match split c rest with
           | piece :: pieces => String a piece :: pieces
           | [] => [String a EmptyString]
           end
  end.

(** [s.startsWith(p)] *)
Fixpoint startsWith (p s : string) : bool :=
  match p, s with
  | EmptyString, _ => true
  | String a p', String b s' => Ascii.eqb a b && startsWith p' s'
  | String _ _, EmptyString => false
  end.

(** [x || d] for [x : string | undefined]: the empty string is falsy. *)
Definition orDefault (x : option string) (d : string) : string :=
  match x with
  | Some EmptyString | None => d
  | Some s => s
  end.

Definition fallbackDomain : string := "jsmwebrtc.my.id".

(** [registeredURI.split('@')[1]?.split(';')[0] || 'jsmwebrtc.my.id'] *)
Definition registeredDomain (agent : UserAgent) : string :=
  let registeredURI := orDefault (configurationUri agent) "" in
  orDefault
    (match split "@" registeredURI !! 1 with
     | Some piece => head (split ";" piece)
     | None => None
     end)
    fallbackDomain.

Inductive Completion (A : Type) :=
| Returned (a : A)
| Thrown (e : JsError).
Arguments Returned {A} a.
Arguments Thrown {A} e.

(** Reading [ua.configuration] while [ua] is still [undefined] throws. *)
Definition formatTarget (agent : option UserAgent) (target : string)
  : Completion string :=
  let withScheme :=
    if negb (startsWith "sip:" target) && negb (startsWith "sips:" target)
    then "sip:" +:+ target
    else target in
  if negb (includes "@" withScheme) then
    match agent with
    | Some a => Returned (withScheme +:+ "@" +:+ registeredDomain a)
    | None =>
        Thrown (TypeError "Cannot read properties of undefined (reading 'configuration')")
    end
  else Returned withScheme.

Definition invalidTarget (formattedTarget : string) : JsError :=
  Error ("Invalid target URI: " +:+ formattedTarget +:+
         ". Please use format: username@domain or sip:username@domain").

(** ** What the browser and the SIP engine answer

    While [await inviter.invite()] and [await invitation.accept()] are
    pending, the engine moves the session through its states, creates its
    session description handler and peer connection and calls the listeners
    registered so far.  What it has made of the session object by the time
    the promise settles, fulfilled or rejected, is an answer of the
    environment: [afterInvite] and [afterAccept]. *)

Record Env := mkEnv {
  uriGrammar : string -> bool;                 (* UserAgent.makeURI parses it *)
  userMedia : JsError + list MediaStreamTrack; (* getUserMedia *)
  inviteOutcome : option JsError;              (* inviter.invite() rejects *)
  acceptOutcome : option JsError;              (* invitation.accept() rejects *)
  replaceTrackOutcome : option JsError;        (* sender.replaceTrack() rejects *)
  newInviterFailure : JsError;        (* thrown by new Inviter(undefined, ..) *)
  afterInvite : Session -> Session;   (* the inviter once invite() has settled *)
  afterAccept : Session -> Session    (* the invitation once accept() has settled *)
}.

(** [UserAgent.makeURI]: [undefined] when the text does not parse. *)
Definition makeURI (env : Env) (text : string) : option URI :=
  if uriGrammar env text then Some (mkURI text) else None.

(** The tracks of a stream returned by [getUserMedia] are new objects. *)
Definition allocTracks (ts : list MediaStreamTrack) (w : World)
  : list nat * World :=
  (seq (length (tracks w)) (length ts), setTracks (tracks w ++ ts) w).

(** [stream.getVideoTracks()] *)
Definition getVideoTracks (w : World) (stream : list nat) : list nat :=
  List.filter (fun tid => match tracks w !! tid with
                          | Some t => isVideo t
                          | None => false
                          end) stream.

(** The [catch] clause shared by [makeCall] and [acceptCall]: a permission
    or missing-device [DOMException] is replaced by a descriptive [Error]. *)
Definition describeMediaError (error : JsError) : option JsError :=
  match error with
  | DOMException name _ =>
      if (String.eqb name "NotAllowedError"
          || String.eqb name "PermissionDeniedError")%bool then
        Some (Error "Microphone or camera access denied. Please allow access in your browser settings.")
      else if String.eqb name "NotFoundError" then
        Some (Error "No microphone or camera found. Please check your device connections.")
      else None
  | _ => None
  end.

(** ** Placing a call *)

Definition makeCallCatch (error : JsError) : JsError :=
  match describeMediaError error with
  | Some described => described
  | None => error
  end.

(** The level meter started on each captured audio track only touches an
    [AudioContext] and the console.  [new Inviter(ua, ..)] with [ua] still
    [undefined] throws what the engine throws, [newInviterFailure]; the
    inviter is registered with its listeners before [invite()] and is left
    as [afterInvite] has it once [invite()] has settled. *)
Definition makeCall (env : Env) (target : string) (withVideo : bool)
    (w : World) : Completion nat * World :=
  let w1 := emit [GetUserMedia true (VideoFlag withVideo)] w in
  match userMedia env with
  | inl error => (Thrown (makeCallCatch error), w1)
  | inr captured =>
      let '(stream, w2) := allocTracks captured w1 in
      match formatTarget (ua w2) target with
      | Thrown error => (Thrown (makeCallCatch error), w2)
      | Returned formattedTarget =>
          match makeURI env formattedTarget with
          | None => (Thrown (makeCallCatch (invalidTarget formattedTarget)), w2)
          | Some targetURI =>
              match ua w2 with
              | None =>
                  (Thrown (makeCallCatch (newInviterFailure env)), w2)
              | Some _ =>
                  let inviter := length (sessions w2) in
                  let w3 :=
                    emit [NewInviter inviter targetURI withVideo]
                      (setSessions
                         (sessions w2 ++ [mkSession Inviter Initial None []])
                         w2) in
                  let w4 := setCurrentSession (Some inviter) w3 in
                  let w5 := updateSession inviter
                              (addListener SdpInterceptListener) w4 in
                  let w6 := updateSession inviter
                              (addListener (AddTracksListener stream)) w5 in
                  let w7 := updateSession inviter
                              (addListener (EstablishedListener withVideo))
                              w6 in
                  let w8 := emit [Invite inviter] w7 in
                  let w9 := updateSession inviter (afterInvite env) w8 in
                  match inviteOutcome env with
                  | Some error => (Thrown (makeCallCatch error), w9)
                  | None => (Returned inviter, w9)
                  end
              end
          end
      end
  end.

(** ** Answering a call *)

(** [ua.delegate.onInvite]: the engine hands over a new invitation. *)
Definition onInvite (invitation : nat) (w : World) : World :=
  setCurrentSession (Some invitation) w.

(** The [catch] clause of [acceptCall]. *)
Definition acceptCallCatch (invitation : nat) (error : JsError) (w : World)
  : JsError * World :=
  match describeMediaError error with
  | Some described => (described, w)
  | None => (error, emit [Reject invitation] w)
  end.

(** The invitation is left as [afterAccept] has it once [accept()] has
    settled; the track-adding listener is registered after that. *)
Definition acceptCall (env : Env) (invitation : nat) (withVideo : bool)
    (w : World) : Completion unit * World :=
  let failWith error w' :=
    let '(thrown, w'') := acceptCallCatch invitation error w' in
    (Thrown thrown, w'') in
  let w1 := emit [GetUserMedia true (VideoFlag withVideo)] w in
  match userMedia env with
  | inl error => failWith error w1
  | inr captured =>
      let '(stream, w2) := allocTracks captured w1 in
      let w3 := updateSession invitation
                  (addListener (EstablishedListener withVideo)) w2 in
      let w4 := emit [Accept invitation withVideo] w3 in
      let w5 := updateSession invitation (afterAccept env) w4 in
      match acceptOutcome env with
      | Some error => failWith error w5
      | None =>
          let w6 := setCurrentSession (Some invitation) w5 in
          let w7 := updateSession invitation
                      (addListener (AddTracksListener stream)) w6 in
          (Returned tt, w7)
      end
  end.

(** ** Switching the camera *)

(** [senders.find(sender => sender.track && sender.track.kind === 'video')]:
    the position of the sender, the identity of its track and the track. *)
Fixpoint findVideoSender (ts : list MediaStreamTrack) (index : nat)
    (ss : list RTCRtpSender) : option (nat * nat * MediaStreamTrack) :=
  match ss with
  | [] => None
  | s :: rest =>
      match track s with
      | Some tid =>
          match ts !! tid with
          | Some t =>
              if isVideo t then Some (index, tid, t)
              else findVideoSender ts (S index) rest
          | None => findVideoSender ts (S index) rest
          end
      | None => findVideoSender ts (S index) rest
      end
  end.

(** [currentFacingMode === 'user' ? 'environment' : 'user'] *)
Definition newFacingMode (currentFacingMode : option FacingMode) : FacingMode :=
  match currentFacingMode with
  | Some FacingUser => FacingEnvironment
  | _ => FacingUser
  end.

(** The effect of a resolved [sender.replaceTrack(newTrack)] on the sender
    at position [i] of the session's peer connection. *)
Definition replaceTrack (i : nat) (newTrack : option nat) (s : Session)
  : Session :=
  match sessionDescriptionHandler s with
  | Some sdh =>
      match peerConnection sdh with
      | Some pc =>
          match senders pc !! i with
          | Some sender =>
              mkSession (sessionClass s) (state s)
                (Some (mkSDH (Some
                   (mkPC (<[i := mkSender newTrack (encodings sender)]>
                            (senders pc))
                         (connectionState pc) (iceConnectionState pc)
                         (signalingState pc) (localDescription pc)
                         (remoteDescription pc)))))
                (stateChange s)
          | None => s
          end
      | None => s
      end
  | None => s
  end.

(** [track.stop()] on the track object [tid]. *)
Definition stopTrack (tid : nat) (w : World) : World :=
  emit [StopTrack tid] (setTracks (alter stopped tid (tracks w)) w).

Definition switchCamera (env : Env) (w : World) : bool * World :=
  match currentSession w with
  | None => (false, w)
  | Some sid =>
      match sessions w !! sid with
      | None => (false, w)
      | Some session =>
          match sessionDescriptionHandler session with
          | None => (false, w)
          | Some sdh =>
              match peerConnection sdh with
              | None => (false, w)     (* pc.getSenders() throws, caught *)
              | Some pc =>
                  match findVideoSender (tracks w) 0 (senders pc) with
                  | None => (false, w)
                  | Some (i, currentTrack, t) =>
                      let facing := newFacingMode (facingMode t) in
                      let w1 :=
                        emit [GetUserMedia false (VideoFacing facing)] w in
                      match userMedia env with
                      | inl _ => (false, w1)
                      | inr captured =>
                          let '(newStream, w2) := allocTracks captured w1 in
                          let newTrack := head (getVideoTracks w2 newStream) in
                          let w3 := emit [ReplaceTrack sid i newTrack] w2 in
                          match replaceTrackOutcome env with
                          | Some _ => (false, w3)
                          | None =>
                              let w4 := updateSession sid
                                          (replaceTrack i newTrack) w3 in
                              (true, stopTrack currentTrack w4)
                          end
                      end
                  end
              end
          end
      end
  end.

(** ** Registration: the promise returned by [initSIP]

    The closure of [initSIP] is a small state machine driven by what the
    user agent, the registerer and the timer queue deliver.  Time is a
    counter of milliseconds. *)

Inductive RegistererState :=
  RegistererInitial | Registered | Unregistered | RegistererTerminated.

Inductive Settlement :=
| Pending
| Resolved
| Rejected (e : JsError).

Inductive Timeout := TimeoutHandle.

Record InitSIP := mkInitSIP {
  onRegistrationFailed : bool;          (* config.onRegistrationFailed given *)
  isPromiseSettled : bool;
  registrationTimeout : option Timeout;
  scheduledTimer : option N;            (* timer queue: deadline of the timer *)
  promise : Settlement;
  failureNotices : list JsError;        (* onRegistrationFailed(error) calls *)
  startPending : bool;                  (* ua.start() not settled yet *)
  listening : bool;                     (* stateChange listener installed *)
  clock : N
}.

(** [resolve()] and [reject(error)] of a promise: the first one wins. *)
Definition settle (outcome now : Settlement) : Settlement :=
  match now with
  | Pending => outcome
  | _ => now
  end.

(** [clearTimeout(registrationTimeout); registrationTimeout = null]. *)
Definition clearRegistrationTimeout (st : InitSIP) : option N :=
  match registrationTimeout st with
  | Some _ => None
  | None => scheduledTimer st
  end.

Definition safeResolve (st : InitSIP) : InitSIP :=
  if negb (isPromiseSettled st) then
    mkInitSIP (onRegistrationFailed st) true None
              (clearRegistrationTimeout st)
              (settle Resolved (promise st)) (failureNotices st)
              (startPending st) (listening st) (clock st)
  else st.

Definition safeReject (error : JsError) (st : InitSIP) : InitSIP :=
  if negb (isPromiseSettled st) then
    mkInitSIP (onRegistrationFailed st) true None
              (clearRegistrationTimeout st)
              (settle (Rejected error) (promise st))
              (if onRegistrationFailed st
               then failureNotices st ++ [error] else failureNotices st)
              (startPending st) (listening st) (clock st)
  else st.

Definition registrationWait : N := 10000.

Definition registrationFailed : JsError :=
  Error "Registration failed or expired.".

Definition registrationTimedOut : JsError :=
  Error "Registration timed out after 10 seconds.".

(** The executor of the promise: [new UserAgent] and [ua.start()] are
    inside a [try]; [constructorFailure] is what they throw, if anything.
    The callback given to [ua.start().then] is taken to run to its end. *)
Definition initSIP (notify : bool) (constructorFailure : option JsError)
    (now : N) : InitSIP :=
  let st := mkInitSIP notify false None None Pending [] true false now in
  match constructorFailure with
  | Some error =>
      safeReject error
        (mkInitSIP notify false None None Pending [] false false now)
  | None => st
  end.

Inductive InitEvent :=
| StartResolved                         (* ua.start() fulfilled *)
| StartRejected (error : JsError)       (* ua.start() rejected *)
| StateChange (s : RegistererState)     (* registerer.stateChange emits *)
| TimeElapses (ms : N).

(** The listener on [registerer.stateChange]. *)
Definition onStateChange (s : RegistererState) (st : InitSIP) : InitSIP :=
  match s with
  | Registered => safeResolve st
  | Unregistered =>
      if negb (isPromiseSettled st) then safeReject registrationFailed st
      else st
  | _ => st
  end.

(** The callback handed to [setTimeout]. *)
Definition onTimeout (st : InitSIP) : InitSIP :=
  if negb (isPromiseSettled st) then safeReject registrationTimedOut st
  else st.

Definition step (ev : InitEvent) (st : InitSIP) : InitSIP :=
  match ev with
  | StartResolved =>
      if startPending st then
        mkInitSIP (onRegistrationFailed st) (isPromiseSettled st)
                  (Some TimeoutHandle) (Some (clock st + registrationWait)%N)
                  (promise st) (failureNotices st) false true (clock st)
      else st
  | StartRejected error =>
      if startPending st then
        safeReject error
          (mkInitSIP (onRegistrationFailed st) (isPromiseSettled st)
                     (registrationTimeout st) (scheduledTimer st)
                     (promise st) (failureNotices st) false (listening st)
                     (clock st))
      else st
  | StateChange s =>
      if listening st then onStateChange s st else st
  | TimeElapses ms =>
      let st1 :=
        mkInitSIP (onRegistrationFailed st) (isPromiseSettled st)
                  (registrationTimeout st) (scheduledTimer st)
                  (promise st) (failureNotices st) (startPending st)
                  (listening st) (clock st + ms)%N in
      match scheduledTimer st with
      | Some deadline =>
          if (deadline <=? clock st + ms)%N then
            onTimeout
              (mkInitSIP (onRegistrationFailed st1) (isPromiseSettled st1)
                         (registrationTimeout st1) None
                         (promise st1) (failureNotices st1) (startPending st1)
                         (listening st1) (clock st1))
          else st1
      | None => st1
      end
  end.

Definition run (evs : list InitEvent) (st : InitSIP) : InitSIP :=
  foldl (fun st ev => step ev st) st evs.

(** Milliseconds that pass during a list of events. *)
Definition elapsed (evs : list InitEvent) : N :=
  foldr (fun ev n => match ev with TimeElapses ms => (ms + n)%N | _ => n end)
        0%N evs.

(** ** Sequences of mute and hold requests *)

Inductive ControlOp :=
| MuteCall (b : bool)
| HoldCall (b : bool).

Definition applyOp (w : World) (op : ControlOp) : World :=
  match op with
  | MuteCall b => snd (muteCall b w)
  | HoldCall b => snd (holdCall b w)
  end.

Definition runOps (ops : list ControlOp) (w : World) : World :=
  foldl applyOp w ops.

(** The argument of the last [muteCall] of a sequence, [false] without one. *)
Definition lastMute (ops : list ControlOp) : bool :=
  foldl (fun acc op => match op with MuteCall b => b | _ => acc end) false ops.

(** The argument of the last [holdCall] of a sequence, [false] without one. *)
Definition lastHold (ops : list ControlOp) : bool :=
  foldl (fun acc op => match op with HoldCall b => b | _ => acc end) false ops.

(** The argument of the last request of either kind. *)
Definition lastRequest (ops : list ControlOp) : option bool :=
  match last ops with
  | Some (MuteCall b) | Some (HoldCall b) => Some b
  | None => None
  end.

(** The audio tracks held by the senders of the active session. *)
Definition audioSenderTracks (w : World) : list MediaStreamTrack :=
  match activePC w with
  | Some pc => List.filter isAudio (omap (senderTrack (tracks w)) (senders pc))
  | None => []
  end.

Definition isLive (t : MediaStreamTrack) : bool :=
  match readyState t with Live => true | Ended => false end.

Definition liveAudioSenderTracks (w : World) : list MediaStreamTrack :=
  List.filter isLive (audioSenderTracks w).

(** [touches ss tid]: some sender of [ss] holds the track object [tid]. *)
Definition touches (ss : list RTCRtpSender) (tid : nat) : bool :=
  existsb (fun s => match track s with
                    | Some i => Nat.eqb i tid
                    | None => false
                    end) ss.

(** The property of section 8: after the requests [ops], every live audio
    sender is enabled exactly when the call is neither muted nor on hold. *)
Definition settlesToPolicy (ops : list ControlOp) (w : World) : Prop :=
  forall t, In t (liveAudioSenderTracks (runOps ops w)) ->
            enabled t = negb (lastMute ops) && negb (lastHold ops).

(** The entries of a report's track list that are flagged [fixed: true]. *)
Definition isFixed (info : TrackInfo) : bool :=
  match info with
  | TrackEntry _ _ _ _ _ fixed => fixed
  | NoTrackEntry _ => false
  end.

Definition fixedCount (infos : list TrackInfo) : nat :=
  length (List.filter isFixed infos).

Definition reportedTracks (r : Report) : list TrackInfo :=
  match diagnostics r with
  | Some d => dTracks d
  | None => []
  end.

(** [error instanceof DOMException] with [error.name] among [names]. *)
Definition namedDOMException (names : list string) (error : JsError) : bool :=
  match error with
  | DOMException name _ => existsb (String.eqb name) names
  | _ => false
  end.

(** The property of section 4.3 for [acceptCall]: whatever error media
    acquisition fails with, the invitation is rejected and that error is
    raised. *)
Definition rejectsAndRethrows (env : Env) (invitation : nat)
    (withVideo : bool) (w : World) : Prop :=
  forall error, userMedia env = inl error ->
    In (Reject invitation) (trace (snd (acceptCall env invitation withVideo w)))
    /\ fst (acceptCall env invitation withVideo w) = Thrown error.

(** The property of section 4.3 for [makeCall]: a target that does not
    parse makes the call fail before any media is acquired. *)
Definition failsFastOnMalformedTarget (env : Env) (target : string)
    (withVideo : bool) (w : World) : Prop :=
  forall formattedTarget,
    formatTarget (ua w) target = Returned formattedTarget ->
    makeURI env formattedTarget = None ->
    fst (makeCall env target withVideo w) = Thrown (invalidTarget formattedTarget)
    /\ trace (snd (makeCall env target withVideo w)) = trace w
    /\ tracks (snd (makeCall env target withVideo w)) = tracks w.

(** The text before the first occurrence of [c]. *)
Fixpoint takeUntil (c : ascii) (s : string) : string :=
  match s with
  | EmptyString => EmptyString
  | String a rest =>
      if Ascii.eqb a c then EmptyString else String a (takeUntil c rest)
  end.

(** Events that neither deliver [Registered] or [Unregistered] nor settle
    [ua.start()]: other state changes, and time passing. *)
Definition isQuiet (ev : InitEvent) : bool :=
  match ev with
  | StateChange RegistererInitial | StateChange RegistererTerminated => true
  | TimeElapses _ => true
  | _ => false
  end.


(** ** Sample worlds *)

Definition micTrack : MediaStreamTrack := mkTrack Audio true Live false None.

Definition camTrack : MediaStreamTrack :=
  mkTrack Video true Live false (Some FacingUser).

Definition samplePC : RTCPeerConnection :=
  mkPC [mkSender (Some 0) [Some false; None]; mkSender None [];
        mkSender (Some 1) []]
       "connected" "connected" "stable" (Some "v=0") None.

Definition alice : UserAgent :=
  mkUA (Some "sip:alice@example.com;transport=ws").

(** An established outbound call with a microphone and a camera sender. *)
Definition sampleCall : World :=
  mkWorld (Some alice) (Some 0) false
          [mkSession Inviter Established (Some (mkSDH (Some samplePC))) []]
          [micTrack; camTrack] [].

(** The same call after [muteCall(true)]. *)
Definition mutedCall : World := snd (muteCall true sampleCall).

(** An established call whose only sender carries the camera. *)
Definition videoOnlyCall : World :=
  mkWorld (Some alice) (Some 0) false
          [mkSession Inviter Established
             (Some (mkSDH (Some
                (mkPC [mkSender (Some 0) []] "connected" "connected" "stable"
                      None None)))) []]
          [camTrack] [].

(** A registered, idle client to which an invitation has been delivered. *)
Definition ringingCall : World :=
  onInvite 0
    (mkWorld (Some alice) None false [mkSession Invitation Initial None []]
             [] []).

(** An idle registered client. *)
Definition idleClient : World := mkWorld (Some alice) None false [] [] [].

(** A grammar that refuses blanks, and browsers that grant the microphone,
    refuse it, or have no capture device. *)
Definition noBlanks (text : string) : bool := negb (includes " " text).

(** An engine that has moved the session to [st], with the sample peer
    connection, by the time the promise settles. *)
Definition engineLeaves (st : SessionState) (s : Session) : Session :=
  mkSession (sessionClass s) st (Some (mkSDH (Some samplePC))) (stateChange s).

Definition missingAgent : JsError :=
  TypeError "Cannot read properties of undefined (reading 'getLogger')".

Definition grantingEnv : Env :=
  mkEnv noBlanks (inr [micTrack]) None None None
        missingAgent (engineLeaves Establishing) (engineLeaves Established).

Definition deniedEnv : Env :=
  mkEnv noBlanks (inl (DOMException "NotAllowedError" "Permission denied"))
        None None None
        missingAgent (engineLeaves Establishing) (engineLeaves Established).

Definition busyDeviceEnv : Env :=
  mkEnv noBlanks (inl (DOMException "NotReadableError" "Device in use"))
        None None None
        missingAgent (engineLeaves Establishing) (engineLeaves Established).

(** A browser that delivers the rear camera. *)
Definition rearCameraEnv : Env :=
  mkEnv noBlanks (inr [mkTrack Video true Live false (Some FacingEnvironment)])
        None None None
        missingAgent (engineLeaves Establishing) (engineLeaves Established).

(** ** Operations that only read the module state

    [transferCall], [sendDtmf] and [sendMessage] assign no module variable
    and no field of a session or track: they answer with what they return
    and the requests they hand to the SIP engine. *)

Inductive EngineRequest :=
| ReferTo (session : nat) (target : URI)
| SendDtmfTone (session : nat) (tone : string)
| MessageTo (target : URI) (body : string).

(** A thrown [Invalid target URI] or [TypeError] is caught and logged. *)
Definition transferCall (env : Env) (target : string) (w : World)
  : bool * list EngineRequest :=
  match currentSession w with
  | None => (false, [])
  | Some sid =>
      match sessions w !! sid with
      | None => (false, [])
      | Some session =>
          match sessionClass session with
          | Inviter =>
              match formatTarget (ua w) target with
              | Thrown _ => (false, [])
              | Returned formattedTarget =>
                  match makeURI env formattedTarget with
                  | None => (false, [])
                  | Some targetURI => (true, [ReferTo sid targetURI])
                  end
              end
          | Invitation => (false, [])
          end
      end
  end.

Definition sendDtmf (tone : string) (w : World) : bool * list EngineRequest :=
  match currentSession w with
  | None => (false, [])
  | Some sid =>
      match sessions w !! sid with
      | None => (false, [])
      | Some session =>
          match sessionDescriptionHandler session with
          | Some _ => (true, [SendDtmfTone sid tone])
          | None => (false, [])
          end
      end
  end.

(** What the server answers to a MESSAGE request: the [requestDelegate]
    callbacks, in the order in which they are invoked. *)
Inductive MessageResponse :=
| OnAccept
| OnReject (reasonPhrase : string)
| OnTrying (reasonPhrase : string).

Definition notInitialized : JsError :=
  Error "SIP User Agent not initialized. Please register first.".

Definition messageRejected (reasonPhrase : string) : JsError :=
  Error ("Message rejected: " +:+ reasonPhrase).

Definition onMessageResponse (p : Settlement) (r : MessageResponse)
  : Settlement :=
  match r with
  | OnAccept => settle Resolved p
  | OnReject reasonPhrase => settle (Rejected (messageRejected reasonPhrase)) p
  | OnTrying _ => p
  end.

Definition sendMessage (env : Env) (target message : string)
    (responses : list MessageResponse) (w : World)
  : Settlement * list EngineRequest :=
  match ua w with
  | None => (Rejected notInitialized, [])
  | Some agent =>
      match formatTarget (Some agent) target with
      | Thrown error => (Rejected error, [])
      | Returned formattedTarget =>
          match makeURI env formattedTarget with
          | None => (Rejected (invalidTarget formattedTarget), [])
          | Some targetURI =>
              (foldl onMessageResponse Pending responses,
               [MessageTo targetURI message])
          end
      end
  end.

(** ** User names out of URIs *)

(** [extractUsername] of [initSIP]: the text handed to the engine as
    [authorizationUsername]. *)
Definition extractUsername (uri : string) : string :=
  let afterScheme :=
    if includes ":" uri then
      match split ":" uri !! 1 with
      | Some part =>
          if includes "@" part then head (split "@" part) else None
      | None => None
      end
    else None in
  match afterScheme with
  | Some username => username
  | None =>
      if includes "@" uri then
        match head (split "@" uri) with
        | Some username => username
        | None => uri
        end
      else uri
  end.

(** [from.split(':')[1]?.split('@')[0] || from], the sender name the page
    shows for a received message. *)
Definition fromUser (from : string) : string :=
  orDefault
    (match split ":" from !! 1 with
     | Some part => head (split "@" part)
     | None => None
     end)
    from.

(** The caller name of the incoming-call dialog. *)
Definition callerName (callerUri : string) : string :=
  if includes "@" callerUri then
    orDefault
      (match split ":" callerUri !! 1 with
       | Some part => head (split "@" part)
       | None => None
       end)
      callerUri
  else callerUri.

(** The URI the registration form registers: [sip:${username}@${domain}]
    with the fixed domain. *)
Definition sipUriValue (usernameValue : string) : string :=
  "sip:" +:+ usernameValue +:+ "@" +:+ "jsmwebrtc.my.id".

(** ** Call durations on screen *)

(** [s.padStart(2, '0')] *)
Definition padStart2 (s : string) : string :=
  match String.length s with
  | 0 => "00"
  | 1 => "0" +:+ s
  | _ => s
  end.

(** [parts.join(':')] *)
Fixpoint joinColon (parts : list string) : string :=
  match parts with
  | [] => ""
  | [part] => part
  | part :: rest => part +:+ ":" +:+ joinColon rest
  end.

Module CallControls.

(** [formatDuration]: the hours are left out while they are zero. *)
Definition formatDuration (seconds : N) : string :=
  let hours := (seconds / 3600)%N in
  let minutes := ((seconds mod 3600) / 60)%N in
  let secs := (seconds mod 60)%N in
  joinColon
    (omap id
       [ if (0 <? hours)%N then Some (padStart2 (pretty hours)) else None;
         Some (padStart2 (pretty minutes));
         Some (padStart2 (pretty secs)) ]).

(** The [useState] cells the toggle handlers read and write. *)
Record State := mkState {
  isMuted : bool;
  isHeld : bool;            (* the component's own [isOnHold] cell *)
  isVideoEnabled : bool
}.

(** A freshly mounted component. *)
Definition mounted : State := mkState false false true.

Definition handleMuteToggle (ui : State) (w : World) : State * World :=
  let '(success, w') := muteCall (negb (isMuted ui)) w in
  (if success
   then mkState (negb (isMuted ui)) (isHeld ui) (isVideoEnabled ui)
   else ui, w').

Definition handleHoldToggle (ui : State) (w : World) : State * World :=
  let '(success, w') := holdCall (negb (isHeld ui)) w in
  (if success
   then mkState (isMuted ui) (negb (isHeld ui)) (isVideoEnabled ui)
   else ui, w').

Definition handleVideoToggle (ui : State) (w : World) : State * World :=
  let '(success, w') := toggleVideo (negb (isVideoEnabled ui)) w in
  (if success
   then mkState (isMuted ui) (isHeld ui) (negb (isVideoEnabled ui))
   else ui, w').

(** [handleTransfer]: nothing happens on an empty input field. *)
Definition handleTransfer (env : Env) (transferTarget domain : string)
    (w : World) : option (bool * list EngineRequest) :=
  match transferTarget with
  | EmptyString => None
  | _ => Some (transferCall env
                 ("sip:" +:+ transferTarget +:+ "@" +:+ domain) w)
  end.

End CallControls.

Module VideoPanel.

(** [formatDuration]: minutes and seconds only. *)
Definition formatDuration (seconds : N) : string :=
  let mins := (seconds / 60)%N in
  let secs := (seconds mod 60)%N in
  padStart2 (pretty mins) +:+ ":" +:+ padStart2 (pretty secs).

End VideoPanel.

(** The target the dialer hands to [makeCall]: [sip:${target}@${domain}]. *)
Definition dialTarget (target domain : string) : string :=
  "sip:" +:+ target +:+ "@" +:+ domain.

(** The target the message form hands to [sendMessage]. *)
Definition fullTarget (target domain : string) : string :=
  if includes "@" target then target
  else "sip:" +:+ target +:+ "@" +:+ domain.

(** ** Sequences of mute, hold and video requests *)

Inductive SwitchOp :=
| SwitchMute (b : bool)
| SwitchHold (b : bool)
| SwitchVideo (b : bool).

Definition applySwitch (w : World) (op : SwitchOp) : World :=
  match op with
  | SwitchMute b => snd (muteCall b w)
  | SwitchHold b => snd (holdCall b w)
  | SwitchVideo b => snd (toggleVideo b w)
  end.

Definition runSwitches (ops : list SwitchOp) (w : World) : World :=
  foldl applySwitch w ops.

(** The tracks held by the senders of the active session. *)
Definition senderTracks (w : World) : list MediaStreamTrack :=
  match activePC w with
  | Some pc => omap (senderTrack (tracks w)) (senders pc)
  | None => []
  end.

(** What the registration promise and its failure callback must agree on. *)
Definition noticesFor (notify : bool) (p : Settlement) : list JsError :=
  match p with
  | Rejected error => if notify then [error] else []
  | _ => []
  end.

(** The consistency of the closure variables of [initSIP]. *)
Definition coherent (st : InitSIP) : Prop :=
  (isPromiseSettled st = false -> promise st = Pending)
  /\ (isPromiseSettled st = true -> promise st <> Pending)
  /\ failureNotices st = noticesFor (onRegistrationFailed st) (promise st)
  /\ (isPromiseSettled st = true -> scheduledTimer st = None)
  /\ (scheduledTimer st <> None -> registrationTimeout st = Some TimeoutHandle)
  /\ (startPending st = true ->
      isPromiseSettled st = false /\ scheduledTimer st = None)
  /\ (listening st = true -> startPending st = false).

(** Characters counted in a text. *)
Fixpoint countChar (c : ascii) (s : string) : nat :=
  match s with
  | EmptyString => 0
  | String a rest => (if Ascii.eqb a c then 1 else 0) + countChar c rest
  end.

(** An inbound call that rings while [sampleCall] is established. *)
Definition callWaiting : World :=
  mkWorld (Some alice) (Some 0) false
          [mkSession Inviter Established (Some (mkSDH (Some samplePC))) [];
           mkSession Invitation Initial None []]
          [micTrack; camTrack] [].

(** An outbound call that is still being set up. *)
Definition dialingCall : World :=
  mkWorld (Some alice) (Some 0) false
          [mkSession Inviter Establishing (Some (mkSDH (Some samplePC))) []]
          [micTrack; camTrack] [].

(** An accepted inbound call. *)
Definition inboundCall : World :=
  mkWorld (Some alice) (Some 0) false
          [mkSession Invitation Established (Some (mkSDH (Some samplePC))) []]
          [micTrack; camTrack] [].

(** A browser page opened before registration. *)
Definition unregistered : World := mkWorld None None false [] [] [].

(** An engine that refuses the accept. *)
Definition failingAcceptEnv : Env :=
  mkEnv noBlanks (inr [micTrack]) None (Some (Error "Invalid session state"))
        None missingAgent (engineLeaves Establishing) (fun s => s).

(** * Properties *)

(** ** The sender loop *)

Lemma setEnabled_idem v t : setEnabled v (setEnabled v t) = setEnabled v t.
Proof. reflexivity. Qed.

Lemma enableSender_length cond v ts s :
  length (enableSender cond v ts s) = length ts.
Proof.
  unfold enableSender.
  destruct (track s) as [tid|]; [|done].
  destruct (ts !! tid) as [t|]; [|done].
  destruct (cond t); [|done].
  apply length_insert.
Qed.

(** Closed form of the loop: a track object is rewritten exactly when some
    sender holds it and the condition selects it. *)
Lemma foldl_enableSender cond v ss :
  (forall b t, cond (setEnabled b t) = cond t) ->
  forall ts tid,
    foldl (enableSender cond v) ts ss !! tid
    = (fun t => if cond t && touches ss tid then setEnabled v t else t)
        <$> ts !! tid.
Proof.
  intros Hcond. induction ss as [|s ss IH]; intros ts tid; simpl.
  - destruct (ts !! tid) as [t|]; simpl; [|done].
    by rewrite andb_false_r.
  - rewrite IH. unfold enableSender at 1.
    destruct (track s) as [i|] eqn:Hs; simpl.
    2: { reflexivity. }
    destruct (ts !! i) as [ti|] eqn:Hi.
    2: { destruct (Nat.eqb_spec i tid) as [->|Hne]; simpl.
         - by rewrite Hi.
         - reflexivity. }
    destruct (cond ti) eqn:Hc.
    + destruct (Nat.eqb_spec i tid) as [->|Hne]; simpl.
      * rewrite list_lookup_insert_eq by (by eapply lookup_lt_Some).
        rewrite Hi. simpl. rewrite Hcond, Hc. simpl.
        by destruct (touches ss tid).
      * by rewrite list_lookup_insert_ne.
    + destruct (Nat.eqb_spec i tid) as [->|Hne]; simpl; [|done].
      rewrite Hi. simpl. by rewrite Hc.
Qed.

Lemma touches_In ss s tid :
  In s ss -> track s = Some tid -> touches ss tid = true.
Proof.
  intros Hin Hs. unfold touches. apply existsb_exists.
  exists s. split; [done|]. rewrite Hs. apply Nat.eqb_refl.
Qed.

(** After the loop, every sender track selected by the condition has the
    value that was written. *)
Lemma forEachSender_enabled cond v pc w s t :
  (forall b t, cond (setEnabled b t) = cond t) ->
  In s (senders pc) ->
  senderTrack (tracks (forEachSender cond v pc w)) s = Some t ->
  cond t = true ->
  enabled t = v.
Proof.
  intros Hcond Hin Ht Hc. unfold senderTrack in Ht.
  destruct (track s) as [tid|] eqn:Hs; [|done].
  unfold forEachSender in Ht. simpl in Ht.
  rewrite (foldl_enableSender cond v _ Hcond) in Ht.
  destruct (tracks w !! tid) as [t0|]; simpl in Ht; [|done].
  rewrite (touches_In _ _ _ Hin Hs), andb_true_r in Ht.
  destruct (cond t0) eqn:Hc0.
  - injection Ht as <-. reflexivity.
  - injection Ht as <-. congruence.
Qed.

Lemma activePC_frame w w' :
  currentSession w' = currentSession w -> sessions w' = sessions w ->
  activePC w' = activePC w.
Proof. intros Hc Hs. unfold activePC, activeSession. by rewrite Hc, Hs. Qed.

Lemma muteCall_active b w pc :
  activePC w = Some pc ->
  muteCall b w = (true, forEachSender isAudio (negb b) pc w).
Proof.
  unfold activePC, muteCall. intros H.
  destruct (activeSession w) as [session|]; [|done].
  destruct (sessionDescriptionHandler session) as [sdh|]; [|done].
  by rewrite H.
Qed.

Lemma holdCall_active b w pc :
  activePC w = Some pc ->
  holdCall b w
  = (true, forEachSender (fun _ => true) (negb b) pc (setIsOnHold b w)).
Proof.
  unfold activePC, holdCall. intros H.
  destruct (activeSession w) as [session|]; [|done].
  destruct (sessionDescriptionHandler session) as [sdh|]; [|done].
  by rewrite H.
Qed.

Lemma muteCall_frame b w :
  currentSession (snd (muteCall b w)) = currentSession w
  /\ sessions (snd (muteCall b w)) = sessions w
  /\ isOnHold (snd (muteCall b w)) = isOnHold w
  /\ trace (snd (muteCall b w)) = trace w.
Proof.
  unfold muteCall.
  destruct (activeSession w) as [session|]; [|done].
  destruct (sessionDescriptionHandler session) as [sdh|]; [|done].
  by destruct (peerConnection sdh).
Qed.

Lemma holdCall_frame b w :
  currentSession (snd (holdCall b w)) = currentSession w
  /\ sessions (snd (holdCall b w)) = sessions w
  /\ trace (snd (holdCall b w)) = trace w.
Proof.
  unfold holdCall.
  destruct (activeSession w) as [session|]; [|done].
  destruct (sessionDescriptionHandler session) as [sdh|]; [|done].
  by destruct (peerConnection sdh).
Qed.

Lemma runOps_activePC ops w : activePC (runOps ops w) = activePC w.
Proof.
  unfold runOps. revert w. induction ops as [|op ops IH]; intros w; [done|].
  simpl. rewrite IH. destruct op as [b|b]; simpl.
  - destruct (muteCall_frame b w) as (Hc & Hs & _). by apply activePC_frame.
  - destruct (holdCall_frame b w) as (Hc & Hs & _). by apply activePC_frame.
Qed.

Lemma runOps_snoc ops op w : runOps (ops ++ [op]) w = applyOp (runOps ops w) op.
Proof. unfold runOps. by rewrite foldl_app. Qed.

Lemma audioSenderTracks_In w pc t :
  activePC w = Some pc ->
  In t (audioSenderTracks w) ->
  exists s, In s (senders pc) /\ senderTrack (tracks w) s = Some t
            /\ isAudio t = true.
Proof.
  intros Hpc. unfold audioSenderTracks. rewrite Hpc.
  intros [Hin Ha]%filter_In.
  apply list_elem_of_In, list_elem_of_omap in Hin as (s & Hs & Hst).
  exists s. by rewrite <- list_elem_of_In.
Qed.

(** C1, the property as the specification words it, fails: a call put on
    hold and then unmuted has its microphone sender enabled again. *)
Lemma mute_hold_policy_counterexample :
  liveAudioSenderTracks sampleCall = [micTrack]
  /\ liveAudioSenderTracks (runOps [HoldCall true; MuteCall false] sampleCall)
     = [micTrack]
  /\ enabled micTrack = true
  /\ lastHold [HoldCall true; MuteCall false] = true
  /\ ~ settlesToPolicy [HoldCall true; MuteCall false] sampleCall.
Proof.
  repeat split.
  intros H. specialize (H micTrack).
  vm_compute in H. discriminate H. by left.
Qed.

(** C1 (amended): on a session with a peer connection, after a non-empty
    sequence of [muteCall] and [holdCall] requests every audio sender's
    track has [enabled] equal to the negation of the argument of the last
    request, whichever of the two operations it was. *)
Theorem mute_hold_last_request_wins ops w pc b t :
  activePC w = Some pc ->
  lastRequest ops = Some b ->
  In t (audioSenderTracks (runOps ops w)) ->
  enabled t = negb b.
Proof.
  intros Hpc Hlast Hin. unfold lastRequest in Hlast.
  destruct (last ops) as [op|] eqn:Hop; [|done].
  apply last_Some in Hop as [ops' ->].
  assert (Hpc' : activePC (runOps ops' w) = Some pc)
    by (by rewrite runOps_activePC).
  rewrite runOps_snoc in Hin.
  set (w' := runOps ops' w) in *.
  destruct op as [m|h]; injection Hlast as ->; simpl in Hin.
  - rewrite (muteCall_active _ _ _ Hpc') in Hin. simpl in Hin.
    apply (audioSenderTracks_In _ pc) in Hin as (s & Hs & Hst & Ha).
    + by eapply (forEachSender_enabled isAudio).
    + by rewrite activePC_frame with (w := w').
  - rewrite (holdCall_active _ _ _ Hpc') in Hin. simpl in Hin.
    apply (audioSenderTracks_In _ pc) in Hin as (s & Hs & Hst & Ha).
    + by eapply (forEachSender_enabled (fun _ => true)).
    + by rewrite activePC_frame with (w := w').
Qed.

Lemma mute_hold_last_request_wins_witness :
  enabled (setEnabled true micTrack) = negb false.
Proof.
  apply (mute_hold_last_request_wins [HoldCall true; MuteCall false]
           sampleCall samplePC false).
  - reflexivity.
  - reflexivity.
  - vm_compute. by left.
Defined.

(** ** Hanging up *)

Lemma updateSession_frame sid f w :
  ua (updateSession sid f w) = ua w
  /\ currentSession (updateSession sid f w) = currentSession w
  /\ isOnHold (updateSession sid f w) = isOnHold w
  /\ tracks (updateSession sid f w) = tracks w
  /\ trace (updateSession sid f w) = trace w.
Proof. unfold updateSession. by destruct (sessions w !! sid). Qed.

Lemma hangupCall_clears w : currentSession (hangupCall w) = None.
Proof.
  unfold hangupCall. destruct (currentSession w) as [sid|] eqn:Hc; [|done].
  destruct (updateSession_frame sid (addListener HangupListener)
              (setCurrentSession None
                 match sessions w !! sid with
                 | Some session => emit (terminationRequest sid session) w
                 | None => w
                 end)) as (_ & -> & _).
  reflexivity.
Qed.

Lemma hangupCall_idle w : currentSession w = None -> hangupCall w = w.
Proof. unfold hangupCall. by intros ->. Qed.

(** C4: [hangupCall] clears [currentSession] before it returns; without an
    active session it leaves the world (module variables, objects and the
    signalling trace) as it is; hence a second [hangupCall] in a row changes
    nothing and issues no request. *)
Theorem hangupCall_idempotent w :
  currentSession (hangupCall w) = None
  /\ (currentSession w = None -> hangupCall w = w)
  /\ hangupCall (hangupCall w) = hangupCall w
  /\ trace (hangupCall (hangupCall w)) = trace (hangupCall w).
Proof.
  assert (H2 : hangupCall (hangupCall w) = hangupCall w)
    by apply hangupCall_idle, hangupCall_clears.
  split; [apply hangupCall_clears|].
  split; [apply hangupCall_idle|].
  split; [exact H2|]. by rewrite H2.
Qed.

Lemma hangupCall_idempotent_witness :
  trace (hangupCall sampleCall) = [Bye 0]
  /\ hangupCall (hangupCall (hangupCall sampleCall))
     = hangupCall (hangupCall sampleCall).
Proof.
  split; [reflexivity|].
  destruct (hangupCall_idempotent (hangupCall sampleCall)) as (_ & H & _).
  apply H. reflexivity.
Defined.

(** ** The hold flag outlives the call *)

Lemma hangupCall_isOnHold w : isOnHold (hangupCall w) = isOnHold w.
Proof.
  unfold hangupCall. destruct (currentSession w) as [sid|]; [|done].
  match goal with
  | |- isOnHold (updateSession ?s ?f ?x) = _ =>
      destruct (updateSession_frame s f x) as (_ & _ & -> & _)
  end.
  by destruct (sessions w !! sid).
Qed.

Lemma updateSession_isOnHold sid f w :
  isOnHold (updateSession sid f w) = isOnHold w.
Proof. apply updateSession_frame. Qed.

Ltac through_updates :=
  repeat (rewrite updateSession_isOnHold; simpl).

Lemma makeCall_isOnHold env target withVideo w :
  isOnHold (snd (makeCall env target withVideo w)) = isOnHold w.
Proof.
  unfold makeCall, allocTracks.
  repeat case_match; simpl; through_updates; reflexivity.
Qed.

Lemma acceptCall_isOnHold env invitation withVideo w :
  isOnHold (snd (acceptCall env invitation withVideo w)) = isOnHold w.
Proof.
  unfold acceptCall, acceptCallCatch, allocTracks.
  repeat case_match; simplify_eq; simpl; through_updates; reflexivity.
Qed.

Lemma holdCall_sets_flag b w w' :
  holdCall b w = (true, w') -> isOnHold w' = b.
Proof.
  unfold holdCall. intros H.
  destruct (activeSession w) as [session|]; [|done].
  destruct (sessionDescriptionHandler session) as [sdh|]; [|done].
  destruct (peerConnection sdh); [|done].
  by injection H as <-.
Qed.

(** C10: [hangupCall] does not reset [isOnHold].  After a successful
    [holdCall(true)] and a [hangupCall], no session is active and
    [isCallOnHold()] still answers [true]; it keeps answering [true] after a
    call is placed or an invitation is delivered and accepted, whatever the
    environment answers, and changes only when [holdCall] succeeds again. *)
Theorem hold_flag_survives_hangup w w1 :
  holdCall true w = (true, w1) ->
  let w2 := hangupCall w1 in
  currentSession w2 = None
  /\ isCallOnHold w2 = true
  /\ (forall env target withVideo,
        isCallOnHold (snd (makeCall env target withVideo w2)) = true)
  /\ (forall env invitation withVideo,
        isCallOnHold
          (snd (acceptCall env invitation withVideo (onInvite invitation w2)))
        = true)
  /\ (forall b w3 w4, holdCall b w3 = (true, w4) -> isCallOnHold w4 = b)
  /\ (forall w', isOnHold (hangupCall w') = isOnHold w').
Proof.
  intros Hhold w2.
  assert (H2 : isOnHold w2 = true).
  { unfold w2. rewrite hangupCall_isOnHold. by eapply holdCall_sets_flag. }
  unfold isCallOnHold. repeat split.
  - apply hangupCall_clears.
  - exact H2.
  - intros. by rewrite makeCall_isOnHold.
  - intros. by rewrite acceptCall_isOnHold.
  - intros b w3 w4. apply holdCall_sets_flag.
  - apply hangupCall_isOnHold.
Qed.

Lemma hold_flag_survives_hangup_witness :
  let w2 := hangupCall (snd (holdCall true sampleCall)) in
  currentSession w2 = None /\ isCallOnHold w2 = true.
Proof.
  destruct (hold_flag_survives_hangup sampleCall
              (snd (holdCall true sampleCall)) eq_refl) as (H1 & H2 & _).
  split; [exact H1 | exact H2].
Defined.

(** ** Audio diagnostics *)

Lemma holdsAudio_insert ts tid t v s :
  ts !! tid = Some t ->
  holdsAudio (<[tid := setEnabled v t]> ts) s = holdsAudio ts s.
Proof.
  intros Ht. unfold holdsAudio, senderTrack.
  destruct (track s) as [i|]; [|done].
  destruct (decide (i = tid)) as [->|Hne].
  - rewrite list_lookup_insert_eq by (by eapply lookup_lt_Some).
    by rewrite Ht.
  - by rewrite list_lookup_insert_ne.
Qed.

Lemma inspectSenders_app ss1 ss2 i acc :
  inspectSenders i (ss1 ++ ss2) acc
  = inspectSenders (i + length ss1) ss2 (inspectSenders i ss1 acc).
Proof.
  revert i acc. induction ss1 as [|s ss1 IH]; intros i acc; simpl.
  - by rewrite Nat.add_0_r.
  - rewrite IH. f_equal. lia.
Qed.

(** A sender that holds no audio track only adds an unfixed entry. *)
Lemma inspectSender_quiet i s acc :
  holdsAudio (iTracks acc) s = false ->
  exists info,
    isFixed info = false
    /\ inspectSender i s acc
       = mkInspection (iTracks acc) (trackInfo acc ++ [info])
                      (fixedTracks acc) (hasAudioSender acc) (iEffects acc).
Proof.
  unfold holdsAudio, senderTrack, inspectSender, holdsAudio, senderTrack.
  intros H. destruct (track s) as [tid|]; simpl.
  - destruct (iTracks acc !! tid) as [t|] eqn:Ht; simpl.
    + rewrite H. simpl. rewrite Ht, H.
      eexists; split; [|reflexivity]; reflexivity.
    + rewrite Ht. eexists; split; [|reflexivity]; reflexivity.
  - eexists; split; [|reflexivity]; reflexivity.
Qed.

Lemma inspectSenders_quiet ss : forall i acc,
  (forall s, In s ss -> holdsAudio (iTracks acc) s = false) ->
  exists infos,
    fixedCount infos = 0
    /\ inspectSenders i ss acc
       = mkInspection (iTracks acc) (trackInfo acc ++ infos)
                      (fixedTracks acc) (hasAudioSender acc) (iEffects acc).
Proof.
  induction ss as [|s ss IH]; intros i acc Hq; simpl.
  - exists []. rewrite app_nil_r. by destruct acc.
  - destruct (inspectSender_quiet i s acc) as (info & Hinfo & ->).
    { apply Hq. by left. }
    destruct (IH (S i)
                (mkInspection (iTracks acc) (trackInfo acc ++ [info])
                   (fixedTracks acc) (hasAudioSender acc) (iEffects acc)))
      as (infos & Hinfos & ->).
    { intros s' Hs'. simpl. apply Hq. by right. }
    simpl. exists (info :: infos). split.
    + unfold fixedCount in *. simpl. by rewrite Hinfo.
    + by rewrite <- app_assoc.
Qed.

(** An enabled audio track is left alone. *)
Lemma inspectSender_sound i s acc tid t :
  track s = Some tid -> iTracks acc !! tid = Some t ->
  isAudio t = true -> enabled t = true ->
  exists info effects,
    isFixed info = false
    /\ inspectSender i s acc
       = mkInspection (iTracks acc) (trackInfo acc ++ [info])
                      (fixedTracks acc) true effects.
Proof.
  intros Hs Ht Ha He. unfold inspectSender.
  rewrite Hs, Ht, Ha, He. simpl.
  unfold holdsAudio, senderTrack. simpl. rewrite Hs, Ht, Ha.
  do 2 eexists; split; [|reflexivity]; reflexivity.
Qed.

Lemma filter_singleton {A} (p : A -> bool) l :
  length (List.filter p l) = 1 ->
  exists (pre : list A) x post,
    l = (pre ++ x :: post)%list /\ p x = true
    /\ (forall y, In y pre -> p y = false)
    /\ (forall y, In y post -> p y = false).
Proof.
  induction l as [|a l IH]; simpl; [done|].
  destruct (p a) eqn:Hp; simpl; intros Hlen.
  - exists [], a, l. repeat split; [done|done|].
    intros y Hy. destruct (p y) eqn:Hpy; [|done].
    assert (In y (List.filter p l)) by (by apply filter_In).
    destruct (List.filter p l); [done|discriminate].
  - destruct (IH Hlen) as (pre & x & post & -> & Hx & Hpre & Hpost).
    exists (a :: pre), x, post. repeat split; [done| |done].
    intros y [<-|Hy]; [done|by apply Hpre].
Qed.

Lemma filter_none {A} (p : A -> bool) l :
  List.filter p l = [] -> forall y, In y l -> p y = false.
Proof.
  intros H y Hy. destruct (p y) eqn:Hp; [|done].
  assert (Hin : In y (List.filter p l)) by (by apply filter_In).
  by rewrite H in Hin.
Qed.

Lemma filter_all_false {A} (p : A -> bool) l :
  (forall y, In y l -> p y = false) -> List.filter p l = [].
Proof.
  induction l as [|a l IH]; intros H; simpl; [done|].
  rewrite (H a) by (by left). apply IH. intros y Hy. apply H. by right.
Qed.

Lemma fixedCount_app infos1 infos2 :
  fixedCount (infos1 ++ infos2) = fixedCount infos1 + fixedCount infos2.
Proof. unfold fixedCount. by rewrite List.filter_app, length_app. Qed.

Lemma debugAudioTracks_active w pc :
  activePC w = Some pc ->
  debugAudioTracks w
  = let r := inspectSenders 0 (senders pc)
               (mkInspection (tracks w) [] 0 false []) in
    let w' := emit (iEffects r) (setTracks (iTracks r) w) in
    let d := mkDiagnostics (connectionState pc) (iceConnectionState pc)
               (signalingState pc) (trackInfo r)
               (sdpText (localDescription pc))
               (sdpText (remoteDescription pc)) in
    if (length (audioSenders (iTracks r) (senders pc)) =? 0)%nat then
      (mkReport "error" "No audio tracks found" (Some d) None, w')
    else
      (mkReport "success"
         (if (0 <? fixedTracks r)%nat
          then "Fixed " +:+ pretty (fixedTracks r) +:+ " audio tracks"
          else "All audio tracks are properly configured")
         (Some d) (Some serverSuggestions), w').
Proof.
  unfold activePC, debugAudioTracks. intros H.
  destruct (activeSession w) as [session|]; [|done].
  destruct (sessionDescriptionHandler session) as [sdh|]; [|done].
  by rewrite H.
Qed.

Lemma inspectSenders_quiet_entries ss : forall i acc,
  (forall s, In s ss -> holdsAudio (iTracks acc) s = false) ->
  exists infos,
    length infos = length ss
    /\ fixedCount infos = 0
    /\ inspectSenders i ss acc
       = mkInspection (iTracks acc) (trackInfo acc ++ infos)
                      (fixedTracks acc) (hasAudioSender acc) (iEffects acc).
Proof.
  induction ss as [|s ss IH]; intros i acc Hq; simpl.
  - exists []. rewrite app_nil_r. by destruct acc.
  - destruct (inspectSender_quiet i s acc) as (info & Hinfo & ->).
    { apply Hq. by left. }
    destruct (IH (S i)
                (mkInspection (iTracks acc) (trackInfo acc ++ [info])
                   (fixedTracks acc) (hasAudioSender acc) (iEffects acc)))
      as (infos & Hlen & Hinfos & ->).
    { intros s' Hs'. simpl. apply Hq. by right. }
    simpl. exists (info :: infos). split; [simpl; by rewrite Hlen|]. split.
    + unfold fixedCount in *. simpl. by rewrite Hinfo.
    + by rewrite <- app_assoc.
Qed.

(** The entry recorded for a sender that holds an audio track: the track is
    flagged [fixed], switched on and counted exactly when it was disabled. *)
Lemma inspectSender_audio i s acc tid t :
  track s = Some tid -> iTracks acc !! tid = Some t -> isAudio t = true ->
  exists effects,
    inspectSender i s acc
    = mkInspection (<[tid := setEnabled true t]> (iTracks acc))
        (trackInfo acc
         ++ [TrackEntry i Audio (enabled t) (readyState t) (muted t)
                        (negb (enabled t))])
        (if enabled t then fixedTracks acc else S (fixedTracks acc))
        true effects.
Proof.
  intros Hs Ht Ha.
  assert (Hk : kind t = Audio).
  { unfold isAudio in Ha. by destruct (kind t). }
  unfold inspectSender. rewrite Hs, Ht, Ha, Hk.
  destruct (enabled t) eqn:He; simpl.
  - assert (Hid : <[tid := setEnabled true t]> (iTracks acc) = iTracks acc).
    { apply list_insert_id. rewrite Ht. f_equal.
      destruct t; simpl in *; by subst. }
    rewrite Hid. unfold holdsAudio, senderTrack. rewrite Hs, Ht, Ha.
    eexists; reflexivity.
  - unfold holdsAudio, senderTrack. simpl. rewrite Hs.
    rewrite list_lookup_insert_eq by (by eapply lookup_lt_Some).
    simpl. change (isAudio (setEnabled true t)) with (isAudio t). rewrite Ha.
    eexists; reflexivity.
Qed.

(** The outcome of the loop when exactly one sender, [s], holds an audio
    track: one entry per sender, the entry of [s] at its position, and
    [fixedTracks] counting that sender or nothing. *)
Lemma inspectSenders_single pre s post ts tid t :
  (forall y, In y pre -> holdsAudio ts y = false) ->
  (forall y, In y post -> holdsAudio ts y = false) ->
  track s = Some tid -> ts !! tid = Some t -> isAudio t = true ->
  exists infos1 infos3 effects,
    inspectSenders 0 (pre ++ s :: post) (mkInspection ts [] 0 false [])
    = mkInspection (<[tid := setEnabled true t]> ts)
        (infos1
         ++ TrackEntry (length pre) Audio (enabled t) (readyState t) (muted t)
                       (negb (enabled t)) :: infos3)
        (if enabled t then 0 else 1) true effects
    /\ length infos1 = length pre /\ length infos3 = length post
    /\ fixedCount infos1 = 0 /\ fixedCount infos3 = 0.
Proof.
  intros Hpre Hpost Hs Ht Ha.
  rewrite inspectSenders_app. simpl.
  destruct (inspectSenders_quiet_entries pre 0 (mkInspection ts [] 0 false []))
    as (infos1 & Hlen1 & Hc1 & ->); [done|].
  simpl.
  destruct (inspectSender_audio (length pre) s
              (mkInspection ts infos1 0 false []) tid t)
    as (effects & ->); [done..|].
  simpl.
  match goal with
  | |- context [inspectSenders ?i post ?acc] =>
      destruct (inspectSenders_quiet_entries post i acc)
        as (infos3 & Hlen3 & Hc3 & ->)
  end.
  { intros y Hy. simpl. rewrite holdsAudio_insert by done. by apply Hpost. }
  simpl. exists infos1, infos3, effects.
  rewrite <- app_assoc. simpl. by destruct (enabled t).
Qed.

Lemma audio_tracks_quiet ts ss :
  (forall y, In y ss -> holdsAudio ts y = false) ->
  List.filter isAudio (omap (senderTrack ts) ss) = [].
Proof.
  induction ss as [|a ss IH]; intros H; simpl; [done|].
  pose proof (H a (or_introl eq_refl)) as Ha. unfold holdsAudio in Ha.
  destruct (senderTrack ts a) as [t|]; simpl; [rewrite Ha|];
    apply IH; intros y Hy; apply H; by right.
Qed.

Lemma fixedCount_cons info infos :
  fixedCount (info :: infos)
  = (if isFixed info then 1 else 0) + fixedCount infos.
Proof. unfold fixedCount. simpl. by destruct (isFixed info). Qed.

Lemma audioSenders_insert ts tid t v ss :
  ts !! tid = Some t ->
  audioSenders (<[tid := setEnabled v t]> ts) ss = audioSenders ts ss.
Proof.
  intros Ht. unfold audioSenders. apply List.filter_ext.
  intros s. by apply holdsAudio_insert.
Qed.

(** C6: with a peer connection that has no audio sender at all,
    [debugAudioTracks] answers with the error report "No audio tracks
    found": not a success report, no repaired track, nothing changed. *)
Theorem debugAudioTracks_no_audio_track w pc :
  activePC w = Some pc ->
  audioSenders (tracks w) (senders pc) = [] ->
  status (fst (debugAudioTracks w)) = "error"
  /\ message (fst (debugAudioTracks w)) = "No audio tracks found"
  /\ suggestions (fst (debugAudioTracks w)) = None
  /\ fixedCount (reportedTracks (fst (debugAudioTracks w))) = 0
  /\ snd (debugAudioTracks w) = w.
Proof.
  intros Hpc Hnone. rewrite (debugAudioTracks_active _ _ Hpc).
  destruct (inspectSenders_quiet (senders pc) 0
              (mkInspection (tracks w) [] 0 false []))
    as (infos & Hc & ->).
  { simpl. by apply filter_none. }
  simpl. rewrite Hnone. simpl. repeat split; [done|].
  unfold emit, setTracks. simpl. rewrite app_nil_r. by destruct w.
Qed.

(** C5: when exactly one sender holds an audio track and that track is
    disabled, [debugAudioTracks] enables it and reports one fixed track
    ("Fixed 1 audio tracks", one entry flagged [fixed]); a second call right
    after it reports none ("All audio tracks are properly configured") and
    leaves the tracks as they are.  The track that is enabled is the one of
    that sender and no other track is written; the reports have one entry
    per sender, the entry of that sender showing the track as it was found:
    disabled and fixed in the first report, enabled and not fixed in the
    second; the active session and the hold flag stay as they are. *)
Theorem debugAudioTracks_repairs_once w pc :
  activePC w = Some pc ->
  length (audioSenders (tracks w) (senders pc)) = 1 ->
  (forall t, In t (audioSenderTracks w) -> enabled t = false) ->
  let r1 := fst (debugAudioTracks w) in
  let w1 := snd (debugAudioTracks w) in
  let r2 := fst (debugAudioTracks w1) in
  let w2 := snd (debugAudioTracks w1) in
  (status r1 = "success"
   /\ message r1 = "Fixed 1 audio tracks"
   /\ fixedCount (reportedTracks r1) = 1
   /\ (forall t, In t (audioSenderTracks w1) -> enabled t = true))
  /\ (status r2 = "success"
      /\ message r2 = "All audio tracks are properly configured"
      /\ fixedCount (reportedTracks r2) = 0
      /\ tracks w2 = tracks w1)
  /\ (exists i s tid t,
        senders pc !! i = Some s /\ track s = Some tid
        /\ tracks w !! tid = Some t
        /\ isAudio t = true /\ enabled t = false
        /\ tracks w1 = <[tid := setEnabled true t]> (tracks w)
        /\ audioSenderTracks w1 = [setEnabled true t]
        /\ length (reportedTracks r1) = length (senders pc)
        /\ reportedTracks r1 !! i
           = Some (TrackEntry i Audio false (readyState t) (muted t) true)
        /\ length (reportedTracks r2) = length (senders pc)
        /\ reportedTracks r2 !! i
           = Some (TrackEntry i Audio true (readyState t) (muted t) false))
  /\ (currentSession w1 = currentSession w /\ sessions w1 = sessions w
      /\ isOnHold w1 = isOnHold w /\ ua w1 = ua w)
  /\ (currentSession w2 = currentSession w /\ sessions w2 = sessions w
      /\ isOnHold w2 = isOnHold w /\ ua w2 = ua w).
Proof.
  intros Hpc Hone Hoff.
  destruct (filter_singleton _ _ Hone)
    as (pre & s & post & Hss & Hs & Hpre & Hpost).
  unfold holdsAudio, senderTrack in Hs.
  destruct (track s) as [tid|] eqn:Htid; [|done].
  destruct (tracks w !! tid) as [t|] eqn:Ht; [|done].
  assert (He : enabled t = false).
  { apply Hoff. unfold audioSenderTracks. rewrite Hpc.
    apply filter_In. split; [|done].
    apply list_elem_of_In, list_elem_of_omap. exists s. split.
    - rewrite Hss. apply list_elem_of_In, in_elt.
    - unfold senderTrack. by rewrite Htid. }
  set (ts' := <[tid := setEnabled true t]> (tracks w)).
  assert (Ht' : ts' !! tid = Some (setEnabled true t)).
  { unfold ts'. apply list_lookup_insert_eq. by eapply lookup_lt_Some. }
  assert (Hpre' : forall y, In y pre -> holdsAudio ts' y = false).
  { intros y Hy. unfold ts'. rewrite holdsAudio_insert by done. auto. }
  assert (Hpost' : forall y, In y post -> holdsAudio ts' y = false).
  { intros y Hy. unfold ts'. rewrite holdsAudio_insert by done. auto. }
  (* first call *)
  destruct (inspectSenders_single pre s post (tracks w) tid t)
    as (infos1 & infos3 & effects1 & Hrun1 & Hlen1 & Hlen3 & Hc1 & Hc3);
    [done..|].
  rewrite He in Hrun1. simpl in Hrun1.
  set (entry1 := TrackEntry (length pre) Audio false (readyState t) (muted t)
                            true) in *.
  assert (Hfirst : debugAudioTracks w
    = (mkReport "success" "Fixed 1 audio tracks"
         (Some (mkDiagnostics (connectionState pc) (iceConnectionState pc)
                  (signalingState pc) (infos1 ++ entry1 :: infos3)
                  (sdpText (localDescription pc))
                  (sdpText (remoteDescription pc))))
         (Some serverSuggestions),
       emit effects1 (setTracks ts' w))).
  { rewrite (debugAudioTracks_active _ _ Hpc). rewrite Hss, Hrun1. simpl.
    rewrite audioSenders_insert by done. rewrite <- Hss, Hone. done. }
  (* second call *)
  set (w1 := emit effects1 (setTracks ts' w)).
  assert (Hpc1 : activePC w1 = Some pc) by (by rewrite <- Hpc).
  destruct (inspectSenders_single pre s post ts' tid (setEnabled true t))
    as (infos2 & infos4 & effects2 & Hrun2 & Hlen2 & Hlen4 & Hc2 & Hc4);
    [done..|].
  simpl in Hrun2.
  set (entry2 := TrackEntry (length pre) Audio true (readyState t) (muted t)
                            false) in *.
  assert (Hsame : <[tid := setEnabled true (setEnabled true t)]> ts' = ts').
  { by apply list_insert_id. }
  rewrite Hsame in Hrun2.
  assert (Hsecond : debugAudioTracks w1
    = (mkReport "success" "All audio tracks are properly configured"
         (Some (mkDiagnostics (connectionState pc) (iceConnectionState pc)
                  (signalingState pc) (infos2 ++ entry2 :: infos4)
                  (sdpText (localDescription pc))
                  (sdpText (remoteDescription pc))))
         (Some serverSuggestions),
       emit effects2 (setTracks ts' w1))).
  { rewrite (debugAudioTracks_active _ _ Hpc1). simpl.
    rewrite Hss, Hrun2. simpl. unfold ts'.
    rewrite audioSenders_insert by done. rewrite <- Hss, Hone. done. }
  assert (Haudio : audioSenderTracks w1 = [setEnabled true t]).
  { unfold audioSenderTracks. rewrite Hpc1. simpl. rewrite Hss.
    rewrite omap_app, List.filter_app, (audio_tracks_quiet ts' pre) by done.
    simpl. unfold senderTrack at 1. rewrite Htid, Ht'. simpl.
    change (isAudio (setEnabled true t)) with (isAudio t). rewrite Hs.
    f_equal. by apply (audio_tracks_quiet ts' post). }
  assert (Hsenders : length (senders pc) = length pre + S (length post)).
  { rewrite Hss, length_app. done. }
  rewrite Hfirst. simpl. fold w1. rewrite Hsecond. simpl.
  unfold reportedTracks. simpl.
  split; [|split; [|split; [|done]]].
  - split; [done|]. split; [done|]. split.
    + by rewrite fixedCount_app, fixedCount_cons, Hc1, Hc3.
    + rewrite Haudio. by intros t1 [<-|[]].
  - split; [done|]. split; [done|]. split; [|done].
    by rewrite fixedCount_app, fixedCount_cons, Hc2, Hc4.
  - exists (length pre), s, tid, t.
    split; [rewrite Hss; by apply list_lookup_middle|].
    split; [done|]. split; [done|]. split; [done|]. split; [done|].
    split; [done|]. split; [done|].
    split; [rewrite length_app; simpl; lia|].
    split; [by apply list_lookup_middle|].
    split; [rewrite length_app; simpl; lia|].
    by apply list_lookup_middle.
Qed.

Lemma debugAudioTracks_no_audio_track_witness :
  message (fst (debugAudioTracks videoOnlyCall)) = "No audio tracks found"
  /\ snd (debugAudioTracks videoOnlyCall) = videoOnlyCall.
Proof.
  destruct (debugAudioTracks_no_audio_track videoOnlyCall
              (mkPC [mkSender (Some 0) []] "connected" "connected" "stable"
                    None None))
    as (_ & Hm & _ & _ & Hw); [reflexivity | reflexivity |].
  split; [exact Hm | exact Hw].
Defined.

Lemma debugAudioTracks_repairs_once_witness :
  message (fst (debugAudioTracks mutedCall)) = "Fixed 1 audio tracks"
  /\ message (fst (debugAudioTracks (snd (debugAudioTracks mutedCall))))
     = "All audio tracks are properly configured"
  /\ tracks mutedCall = [setEnabled false micTrack; camTrack]
  /\ tracks (snd (debugAudioTracks mutedCall)) = [micTrack; camTrack]
  /\ currentSession (snd (debugAudioTracks mutedCall)) = Some 0.
Proof.
  destruct (debugAudioTracks_repairs_once mutedCall samplePC)
    as ((_ & H1 & _) & (_ & H2 & _) & Hrepair & (Hcur & _) & _).
  - reflexivity.
  - reflexivity.
  - vm_compute. intros t [<-|[]]. reflexivity.
  - split; [exact H1|]. split; [exact H2|]. split; [reflexivity|].
    split; [|exact Hcur].
    destruct Hrepair as (i & s & tid & t & _ & _ & Ht & Ha & _ & Htracks & _).
    rewrite Htracks.
    destruct tid as [|[|tid]]; simpl in Ht; [| |discriminate Ht].
    + injection Ht as <-. reflexivity.
    + injection Ht as <-. discriminate Ha.
Defined.

(** ** Answering a call: failures of media acquisition *)

(** C2, the property as the specification words it, fails: when the browser
    refuses the microphone, [acceptCall] raises a new error in place of the
    refusal and the invitation is not rejected. *)
Lemma acceptCall_rejects_counterexample :
  trace (snd (acceptCall deniedEnv 0 true ringingCall))
  = [GetUserMedia true (VideoFlag true)]
  /\ fst (acceptCall deniedEnv 0 true ringingCall)
     = Thrown (Error "Microphone or camera access denied. Please allow access in your browser settings.")
  /\ ~ rejectsAndRethrows deniedEnv 0 true ringingCall.
Proof.
  split; [reflexivity|]. split; [reflexivity|].
  intros H.
  destruct (H (DOMException "NotAllowedError" "Permission denied") eq_refl)
    as [_ Hthrown].
  vm_compute in Hthrown. discriminate Hthrown.
Qed.

(** C2 (amended): when local media acquisition fails with an error other
    than a [DOMException] named NotAllowedError, PermissionDeniedError or
    NotFoundError, [acceptCall] calls [invitation.reject()] and raises that
    same error; for a NotAllowedError or PermissionDeniedError it raises a
    new error that tells access was denied, and for a NotFoundError one that
    tells no device was found, in place of the original error. *)
Theorem acceptCall_media_failure env invitation withVideo w error :
  userMedia env = inl error ->
  let outcome := fst (acceptCall env invitation withVideo w) in
  let w' := snd (acceptCall env invitation withVideo w) in
  (namedDOMException
     ["NotAllowedError"; "PermissionDeniedError"; "NotFoundError"] error
   = false ->
   outcome = Thrown error
   /\ trace w' = trace w ++ [GetUserMedia true (VideoFlag withVideo);
                              Reject invitation])
  /\ (namedDOMException ["NotAllowedError"; "PermissionDeniedError"] error
      = true ->
      outcome = Thrown (Error "Microphone or camera access denied. Please allow access in your browser settings."))
  /\ (namedDOMException ["NotFoundError"] error = true ->
      outcome = Thrown (Error "No microphone or camera found. Please check your device connections.")).
Proof.
  intros Hmedia. unfold acceptCall, acceptCallCatch. rewrite Hmedia.
  destruct error as [name msg|msg|msg]; simpl.
  2,3: by (repeat split; try discriminate; rewrite <- app_assoc).
  destruct (String.eqb name "NotAllowedError") eqn:H1; simpl.
  { repeat split; try discriminate.
    apply String.eqb_eq in H1 as ->. discriminate. }
  destruct (String.eqb name "PermissionDeniedError") eqn:H2; simpl.
  { repeat split; try discriminate.
    apply String.eqb_eq in H2 as ->. discriminate. }
  destruct (String.eqb name "NotFoundError") eqn:H3; simpl.
  { repeat split; try discriminate. }
  repeat split; try discriminate. by rewrite <- app_assoc.
Qed.

Lemma acceptCall_media_failure_witness :
  fst (acceptCall busyDeviceEnv 0 true ringingCall)
  = Thrown (DOMException "NotReadableError" "Device in use")
  /\ trace (snd (acceptCall busyDeviceEnv 0 true ringingCall))
     = [GetUserMedia true (VideoFlag true); Reject 0].
Proof.
  destruct (acceptCall_media_failure busyDeviceEnv 0 true ringingCall
              (DOMException "NotReadableError" "Device in use") eq_refl)
    as (H & _).
  apply H. reflexivity.
Defined.

(** ** Placing a call: malformed targets *)

(** C3, the property as the specification words it, fails: the microphone
    is captured before the target is looked at. *)
Lemma makeCall_fails_fast_counterexample :
  formatTarget (ua idleClient) "bo b" = Returned "sip:bo b@example.com"
  /\ makeURI grantingEnv "sip:bo b@example.com" = None
  /\ trace (snd (makeCall grantingEnv "bo b" false idleClient))
     = [GetUserMedia true (VideoFlag false)]
  /\ tracks (snd (makeCall grantingEnv "bo b" false idleClient)) = [micTrack]
  /\ ~ failsFastOnMalformedTarget grantingEnv "bo b" false idleClient.
Proof.
  split; [reflexivity|]. split; [reflexivity|].
  split; [reflexivity|]. split; [reflexivity|].
  intros H.
  destruct (H "sip:bo b@example.com" eq_refl eq_refl) as (_ & Htrace & _).
  vm_compute in Htrace. discriminate Htrace.
Qed.

(** C3 (amended): for a target that does not parse, [makeCall] first
    acquires local media; when that succeeds it fails with the invalid-target
    error before an inviter is created or an invite is sent, and without
    touching [currentSession]; the captured tracks stay as they were
    delivered. *)
Theorem makeCall_malformed_target env target withVideo w captured formatted :
  userMedia env = inr captured ->
  formatTarget (ua w) target = Returned formatted ->
  makeURI env formatted = None ->
  let w' := snd (makeCall env target withVideo w) in
  fst (makeCall env target withVideo w) = Thrown (invalidTarget formatted)
  /\ trace w' = trace w ++ [GetUserMedia true (VideoFlag withVideo)]
  /\ sessions w' = sessions w
  /\ currentSession w' = currentSession w
  /\ tracks w' = tracks w ++ captured.
Proof.
  intros Hmedia Hformat Huri. unfold makeCall, allocTracks.
  rewrite Hmedia. simpl. rewrite Hformat, Huri. by simpl.
Qed.

Lemma makeCall_malformed_target_witness :
  fst (makeCall grantingEnv "bo b" false idleClient)
  = Thrown (invalidTarget "sip:bo b@example.com")
  /\ tracks (snd (makeCall grantingEnv "bo b" false idleClient)) = [micTrack].
Proof.
  destruct (makeCall_malformed_target grantingEnv "bo b" false idleClient
              [micTrack] "sip:bo b@example.com" eq_refl eq_refl eq_refl)
    as (H1 & _ & _ & _ & H2).
  split; [exact H1 | exact H2].
Defined.

(** ** Placing a call: normalisation of a bare user name *)

Lemma split_nonempty c s : split c s <> [].
Proof.
  destruct s as [|a rest]; simpl; [done|].
  destruct (Ascii.eqb a c); [done|]. by destruct (split c rest).
Qed.

Lemma head_split c s : head (split c s) = Some (takeUntil c s).
Proof.
  induction s as [|a rest IH]; simpl; [done|].
  destruct (Ascii.eqb a c); [done|].
  destruct (split c rest) as [|piece pieces]; simpl in *; [done|].
  by injection IH as ->.
Qed.

Lemma append_cons a s1 s2 : String a s1 +:+ s2 = String a (s1 +:+ s2).
Proof. reflexivity. Qed.

Lemma append_nil s : "" +:+ s = s.
Proof. reflexivity. Qed.

Lemma split_at_first c s1 s2 :
  includes c s1 = false ->
  split c (s1 +:+ String c s2) = s1 :: split c s2.
Proof.
  induction s1 as [|a rest IH].
  - intros _. rewrite append_nil. simpl. by rewrite Ascii.eqb_refl.
  - rewrite append_cons. simpl.
    destruct (Ascii.eqb a c); [done|]. intros H. by rewrite IH.
Qed.

Lemma takeUntil_app c s1 s2 :
  includes c s1 = false ->
  takeUntil c (s1 +:+ s2) = s1 +:+ takeUntil c s2.
Proof.
  induction s1 as [|a rest IH]; [done|].
  rewrite !append_cons. simpl.
  destruct (Ascii.eqb a c); [done|]. intros H. by rewrite IH.
Qed.

Lemma includes_app c s1 s2 :
  includes c (s1 +:+ s2) = includes c s1 || includes c s2.
Proof.
  induction s1 as [|a rest IH]; [done|].
  rewrite append_cons. simpl. by destruct (Ascii.eqb a c).
Qed.

Lemma append_empty s : s +:+ "" = s.
Proof.
  induction s as [|a rest IH]; [done|]. by rewrite append_cons, IH.
Qed.

(** The domain of a registered URI [user@host] or [user@host;params]. *)
Lemma registeredDomain_host user host params :
  includes "@" user = false ->
  host <> "" -> includes "@" host = false -> includes ";" host = false ->
  (params = "" \/ startsWith ";" params = true) ->
  registeredDomain (mkUA (Some (user +:+ "@" +:+ host +:+ params))) = host.
Proof.
  intros Huser Hne Hat Hsemi Hparams. unfold registeredDomain.
  cbn [configurationUri].
  set (reg := user +:+ "@" +:+ host +:+ params).
  assert (Hreg : orDefault (Some reg) "" = reg) by (by destruct reg).
  rewrite Hreg. unfold reg.
  change ("@" +:+ host +:+ params) with (String "@" (host +:+ params)).
  rewrite split_at_first by done.
  change ((user :: split "@" (host +:+ params)) !! 1)
    with (split "@" (host +:+ params) !! 0).
  rewrite <- head_lookup, head_split, head_split.
  rewrite takeUntil_app by done.
  assert (Hcut : takeUntil ";" (host +:+ takeUntil "@" params) = host).
  { rewrite takeUntil_app by done.
    destruct Hparams as [->|Hp]; simpl; [apply append_empty|].
    destruct params as [|a rest]; [discriminate Hp|].
    cbn [startsWith] in Hp.
    destruct (Ascii.eqb_spec ";" a) as [<-|]; [|discriminate Hp].
    simpl. apply append_empty. }
  rewrite Hcut. destruct host; [done|reflexivity].
Qed.

(** C8: a target without ["@"] and without a [sip:] or [sips:] scheme is
    normalised to [sip:<target>@<domain>], the domain being the host of the
    registered user agent's URI; the inviter is created for the
    normalised target, once local media has been acquired, and the invite
    is sent for that inviter. *)
Theorem makeCall_normalizes_bare_target
    env target withVideo w user host params captured :
  startsWith "sip:" target = false ->
  startsWith "sips:" target = false ->
  includes "@" target = false ->
  ua w = Some (mkUA (Some (user +:+ "@" +:+ host +:+ params))) ->
  includes "@" user = false ->
  host <> "" -> includes "@" host = false -> includes ";" host = false ->
  (params = "" \/ startsWith ";" params = true) ->
  let normalized := "sip:" +:+ target +:+ "@" +:+ host in
  formatTarget (ua w) target = Returned normalized
  /\ (userMedia env = inr captured ->
      uriGrammar env normalized = true ->
      let inviter := length (sessions w) in
      trace (snd (makeCall env target withVideo w))
      = trace w ++ [GetUserMedia true (VideoFlag withVideo);
                    NewInviter inviter (mkURI normalized) withVideo;
                    Invite inviter]
      /\ currentSession (snd (makeCall env target withVideo w)) = Some inviter
      /\ (inviteOutcome env = None ->
          fst (makeCall env target withVideo w) = Returned inviter)).
Proof.
  intros Hsip Hsips Hat Hua Huser Hne Hhat Hsemi Hparams normalized.
  assert (Hformat : formatTarget (ua w) target = Returned normalized).
  { unfold formatTarget. rewrite Hsip, Hsips. cbn [negb andb].
    rewrite includes_app, Hat. cbn. rewrite Hua.
    rewrite registeredDomain_host by done. reflexivity. }
  split; [exact Hformat|].
  intros Hmedia Hgrammar inviter.
  unfold makeCall, allocTracks. rewrite Hmedia. simpl.
  rewrite Hformat. unfold makeURI. rewrite Hgrammar, Hua.
  destruct (inviteOutcome env) as [error|]; simpl;
    repeat first
      [ rewrite !(proj1 (proj2 (updateSession_frame _ _ _)))
      | rewrite !(proj2 (proj2 (proj2 (proj2 (updateSession_frame _ _ _)))))
      | progress simpl ];
    rewrite <- !app_assoc; simpl; repeat split; done.
Qed.

Lemma makeCall_normalizes_bare_target_witness :
  formatTarget (ua idleClient) "bob" = Returned "sip:bob@example.com"
  /\ trace (snd (makeCall grantingEnv "bob" false idleClient))
     = [GetUserMedia true (VideoFlag false);
        NewInviter 0 (mkURI "sip:bob@example.com") false; Invite 0].
Proof.
  destruct (makeCall_normalizes_bare_target grantingEnv "bob" false idleClient
              "sip:alice" "example.com" ";transport=ws" [micTrack])
    as (Hformat & Hcall); try reflexivity.
  - discriminate.
  - by right.
  - split; [exact Hformat|].
    destruct Hcall as (Htrace & _); [reflexivity | reflexivity |].
    exact Htrace.
Defined.

(** ** Switching the camera *)

Lemma findVideoSender_spec ts ss : forall start i tid t,
  findVideoSender ts start ss = Some (i, tid, t) ->
  exists s, start <= i /\ ss !! (i - start) = Some s
            /\ track s = Some tid /\ ts !! tid = Some t /\ isVideo t = true.
Proof.
  induction ss as [|s ss IH]; intros start i tid t; simpl; [done|].
  assert (Hnext : findVideoSender ts (S start) ss = Some (i, tid, t) ->
    exists s0, start <= i /\ (s :: ss) !! (i - start) = Some s0
               /\ track s0 = Some tid /\ ts !! tid = Some t
               /\ isVideo t = true).
  { intros H. destruct (IH _ _ _ _ H) as (s0 & Hle & Hl & Hrest).
    exists s0. split; [lia|]. split; [|done].
    replace (i - start) with (S (i - S start)) by lia. done. }
  destruct (track s) as [j|] eqn:Hs; [|done].
  destruct (ts !! j) as [tj|] eqn:Hj; [|done].
  destruct (isVideo tj) eqn:Hv; [|done].
  intros [= <- <- <-]. exists s. rewrite Nat.sub_diag. by repeat split.
Qed.

Lemma activePC_session w sid pc :
  currentSession w = Some sid -> activePC w = Some pc ->
  exists session sdh,
    sessions w !! sid = Some session
    /\ sessionDescriptionHandler session = Some sdh
    /\ peerConnection sdh = Some pc.
Proof.
  unfold activePC, activeSession. intros ->.
  destruct (sessions w !! sid) as [session|]; [|done].
  destruct (sessionDescriptionHandler session) as [sdh|] eqn:Hsdh; [|done].
  intros H. by exists session, sdh.
Qed.

Lemma head_filter_first {A} (p : A -> bool) (l : list A) x :
  head (List.filter p l) = Some x ->
  exists k, l !! k = Some x /\ p x = true
            /\ (forall j y, j < k -> l !! j = Some y -> p y = false).
Proof.
  induction l as [|a l IH]; simpl; [done|].
  destruct (p a) eqn:Hp; simpl.
  - intros [= <-]. exists 0. split; [done|]. split; [done|].
    intros j y Hj. lia.
  - intros H. destruct (IH H) as (k & Hk & Hx & Hfirst).
    exists (S k). split; [done|]. split; [done|].
    intros [|j] y Hj; simpl; [by intros [= <-]|]. apply Hfirst. lia.
Qed.

(** [newStream.getVideoTracks()[0]] on a stream that has a video track: the
    first video track of the stream, a new object behind the tracks there
    were. *)
Lemma first_video_track ts captured w2 :
  tracks w2 = ts ++ captured ->
  existsb isVideo captured = true ->
  exists k c,
    head (getVideoTracks w2 (seq (length ts) (length captured)))
    = Some (length ts + k)
    /\ captured !! k = Some c /\ isVideo c = true
    /\ (forall j c', j < k -> captured !! j = Some c' -> isVideo c' = false).
Proof.
  intros Hts Hvideo. unfold getVideoTracks. rewrite Hts.
  set (p := fun tid => match (ts ++ captured) !! tid with
                       | Some t => isVideo t
                       | None => false
                       end).
  assert (Hp : forall j, p (length ts + j)
                         = match captured !! j with
                           | Some t => isVideo t
                           | None => false
                           end).
  { intros j. unfold p. rewrite lookup_app_r by lia.
    by replace (length ts + j - length ts) with j by lia. }
  destruct (head (List.filter p (seq (length ts) (length captured))))
    as [n|] eqn:Hhead.
  - destruct (head_filter_first _ _ _ Hhead) as (k & Hk & Hn & Hfirst).
    apply lookup_seq in Hk as [-> Hlt].
    rewrite Hp in Hn.
    destruct (captured !! k) as [c|] eqn:Hc; [|done].
    exists k, c. split; [done|]. split; [done|]. split; [done|].
    intros j c' Hj Hc'.
    assert (Hseq : seq (length ts) (length captured) !! j
                   = Some (length ts + j)).
    { apply lookup_seq. split; [done|]. lia. }
    pose proof (Hfirst j _ Hj Hseq) as Hq. rewrite Hp, Hc' in Hq. done.
  - apply existsb_exists in Hvideo as (c & Hin & Hc).
    apply list_elem_of_In, list_elem_of_lookup in Hin as (k & Hk).
    assert (Hnil : List.filter p (seq (length ts) (length captured)) = []).
    { destruct (List.filter p (seq (length ts) (length captured)));
        [reflexivity|discriminate Hhead]. }
    assert (Hfalse : p (length ts + k) = false).
    { apply (filter_none _ _ Hnil).
      apply in_seq. pose proof (lookup_lt_Some _ _ _ Hk). lia. }
    rewrite Hp, Hk, Hc in Hfalse. done.
Qed.

(** C9: when [switchCamera] succeeds on a session whose video sender holds
    a track (live or not), the browser delivering a live stream with a
    video track, [replaceTrack] has resolved on that sender for the first
    video track of the new stream, which was requested with the opposite
    facing mode ([environment] for a [user] camera, [user] otherwise),
    before the old track is stopped.  Afterwards the sender holds that new
    track, a new object that is live and is not the stopped one; the old
    track is ended and no other track is changed. *)
Theorem switchCamera_replaces_then_stops env w w' sid pc i old t :
  currentSession w = Some sid ->
  activePC w = Some pc ->
  findVideoSender (tracks w) 0 (senders pc) = Some (i, old, t) ->
  (forall captured, userMedia env = inr captured ->
     Forall (fun c => readyState c = Live) captured
     /\ existsb isVideo captured = true) ->
  switchCamera env w = (true, w') ->
  exists captured k c sender requested,
    userMedia env = inr captured
    /\ replaceTrackOutcome env = None
    /\ senders pc !! i = Some sender /\ track sender = Some old
    /\ (facingMode t = Some FacingUser -> requested = FacingEnvironment)
    /\ (facingMode t <> Some FacingUser -> requested = FacingUser)
    /\ captured !! k = Some c /\ isVideo c = true /\ readyState c = Live
    /\ (forall j c', j < k -> captured !! j = Some c' -> isVideo c' = false)
    /\ trace w'
       = trace w ++ [GetUserMedia false (VideoFacing requested);
                     ReplaceTrack sid i (Some (length (tracks w) + k));
                     StopTrack old]
    /\ length (tracks w) + k <> old
    /\ tracks w' = alter stopped old (tracks w ++ captured)
    /\ tracks w' !! (length (tracks w) + k) = Some c
    /\ (readyState <$> tracks w' !! old) = Some Ended
    /\ currentSession w' = Some sid
    /\ activePC w'
       = Some (mkPC (<[i := mkSender (Some (length (tracks w) + k))
                                     (encodings sender)]> (senders pc))
                 (connectionState pc) (iceConnectionState pc)
                 (signalingState pc) (localDescription pc)
                 (remoteDescription pc))
    /\ (forall pc' sender',
          activePC w' = Some pc' -> senders pc' !! i = Some sender' ->
          senderTrack (tracks w') sender' = Some c).
Proof.
  intros Hcur Hpc Hfind Hfresh Hrun.
  destruct (activePC_session _ _ _ Hcur Hpc) as (session & sdh & Hs & Hsdh & Hp).
  destruct (findVideoSender_spec _ _ _ _ _ _ Hfind)
    as (sender & _ & Hsender & Htrack & Hold & Hvideo).
  rewrite Nat.sub_0_r in Hsender.
  unfold switchCamera in Hrun.
  rewrite Hcur, Hs, Hsdh, Hp, Hfind in Hrun.
  destruct (userMedia env) as [error|captured] eqn:Hmedia; [done|].
  destruct (Hfresh captured eq_refl) as [Hlive Hhas].
  unfold allocTracks in Hrun. simpl in Hrun.
  destruct (first_video_track (tracks w) captured
              (setTracks (tracks w ++ captured)
                 (emit [GetUserMedia false
                          (VideoFacing (newFacingMode (facingMode t)))] w))
              eq_refl Hhas)
    as (k & c & Hhead & Hk & Hc & Hfirst).
  rewrite Hhead in Hrun.
  destruct (replaceTrackOutcome env) as [error|] eqn:Hreplace; [done|].
  injection Hrun as <-.
  assert (Holdlt : old < length (tracks w)) by (by eapply lookup_lt_Some).
  assert (Hnew : alter stopped old (tracks w ++ captured)
                 !! (length (tracks w) + k) = Some c).
  { rewrite list_lookup_alter_ne by lia. rewrite lookup_app_r by lia.
    by replace (length (tracks w) + k - length (tracks w)) with k by lia. }
  assert (Hactive : activePC
      (stopTrack old
         (updateSession sid (replaceTrack i (Some (length (tracks w) + k)))
            (emit [ReplaceTrack sid i (Some (length (tracks w) + k))]
               (setTracks (tracks w ++ captured)
                  (emit [GetUserMedia false
                           (VideoFacing (newFacingMode (facingMode t)))]
                     w)))))
    = Some (mkPC (<[i := mkSender (Some (length (tracks w) + k))
                                  (encodings sender)]> (senders pc))
              (connectionState pc) (iceConnectionState pc)
              (signalingState pc) (localDescription pc)
              (remoteDescription pc))).
  { unfold stopTrack, updateSession, activePC, activeSession. simpl.
    rewrite Hs. simpl. rewrite Hcur.
    rewrite list_lookup_insert_eq by (by eapply lookup_lt_Some).
    unfold replaceTrack. rewrite Hsdh, Hp, Hsender. reflexivity. }
  exists captured, k, c, sender, (newFacingMode (facingMode t)).
  split; [done|]. split; [done|]. split; [done|]. split; [done|].
  split; [by intros ->|].
  split; [intros Hother; by destruct (facingMode t) as [[]|]|].
  split; [done|]. split; [done|].
  split; [by eapply Forall_lookup_1 in Hlive|].
  split; [done|].
  split.
  { unfold stopTrack, updateSession. simpl. rewrite Hs. simpl.
    by rewrite <- !app_assoc. }
  split; [lia|].
  split.
  { unfold stopTrack, updateSession. simpl. by rewrite Hs. }
  split.
  { unfold stopTrack, updateSession. simpl. by rewrite Hs. }
  split.
  { unfold stopTrack, updateSession. simpl. rewrite Hs. simpl.
    rewrite list_lookup_alter_eq, lookup_app_l by done. by rewrite Hold. }
  split.
  { unfold stopTrack, updateSession. simpl. by rewrite Hs. }
  split; [exact Hactive|].
  intros pc' sender'. rewrite Hactive. intros [= <-]. simpl.
  rewrite list_lookup_insert_eq by (by eapply lookup_lt_Some).
  intros [= <-]. unfold senderTrack, stopTrack, updateSession. simpl.
  by rewrite Hs.
Qed.

Lemma switchCamera_replaces_then_stops_witness :
  trace (snd (switchCamera rearCameraEnv sampleCall))
  = [GetUserMedia false (VideoFacing FacingEnvironment);
     ReplaceTrack 0 2 (Some 2); StopTrack 1]
  /\ tracks (snd (switchCamera rearCameraEnv sampleCall))
     = [micTrack; stopped camTrack;
        mkTrack Video true Live false (Some FacingEnvironment)].
Proof.
  destruct (switchCamera_replaces_then_stops rearCameraEnv sampleCall
              (snd (switchCamera rearCameraEnv sampleCall)) 0 samplePC 2 1
              camTrack)
    as (captured & k & c & sender & requested & Hmedia & _ & _ & _ & Hreq & _
        & Hk & _ & _ & _ & Htrace & _ & Htracks & _).
  - reflexivity.
  - reflexivity.
  - reflexivity.
  - intros captured [= <-]. split; [repeat constructor | reflexivity].
  - reflexivity.
  - injection Hmedia as <-.
    destruct k as [|k]; [|destruct k; discriminate Hk].
    rewrite (Hreq eq_refl) in Htrace.
    split; [exact Htrace | exact Htracks].
Defined.

(** ** Registration *)


Lemma run_app evs1 evs2 st : run (evs1 ++ evs2) st = run evs2 (run evs1 st).
Proof. unfold run. by rewrite foldl_app. Qed.

Lemma run_cons ev evs st : run (ev :: evs) st = run evs (step ev st).
Proof. reflexivity. Qed.




(** Once [isPromiseSettled] is set, no event changes the outcome. *)
Lemma step_settled ev st :
  isPromiseSettled st = true ->
  isPromiseSettled (step ev st) = true /\ promise (step ev st) = promise st.
Proof.
  intros Hs. destruct ev as [|error|s|ms]; simpl.
  - by destruct (startPending st).
  - destruct (startPending st); [|done]. unfold safeReject. simpl.
    by rewrite Hs.
  - destruct (listening st); [|done].
    destruct s; simpl; try done.
    + unfold safeResolve. by rewrite Hs.
    + by rewrite Hs.
  - destruct (scheduledTimer st) as [deadline|]; simpl; [|done].
    destruct (deadline <=? clock st + ms)%N; simpl; [|done].
    unfold onTimeout. simpl. by rewrite Hs.
Qed.

Lemma run_settled evs : forall st,
  isPromiseSettled st = true -> promise (run evs st) = promise st.
Proof.
  induction evs as [|ev evs IH]; intros st Hs; [done|].
  rewrite run_cons. destruct (step_settled ev st Hs) as [Hs' <-].
  by apply IH.
Qed.

(** Before [ua.start()] settles, quiet events only move the clock. *)
Lemma elapsed_cons ev evs :
  elapsed (ev :: evs)
  = match ev with TimeElapses ms => (ms + elapsed evs)%N | _ => elapsed evs end.
Proof. reflexivity. Qed.

Lemma run_quiet_before_start lead : forall notify now,
  forallb isQuiet lead = true ->
  run lead (initSIP notify None now)
  = initSIP notify None (now + elapsed lead)%N.
Proof.
  induction lead as [|ev lead IH]; intros notify now Hq.
  - cbn. by rewrite N.add_0_r.
  - cbn [forallb] in Hq. apply andb_prop in Hq as [Hev Hq].
    rewrite run_cons, elapsed_cons.
    destruct ev as [|error|s|ms]; try discriminate.
    + assert (Hstep : step (StateChange s) (initSIP notify None now)
                      = initSIP notify None now) by reflexivity.
      rewrite Hstep. by apply IH.
    + assert (Hstep : step (TimeElapses ms) (initSIP notify None now)
                      = initSIP notify None (now + ms)%N) by reflexivity.
      rewrite Hstep, IH by done. f_equal. lia.
Qed.






(** * Further properties *)

(** ** Control operations without an active session *)

(** X1: once [hangupCall] has returned, every control operation finds no
    session: it answers [false] (the call state is [Idle], the diagnosis is
    the "No active call" error), changes nothing and sends nothing. *)
Theorem controls_fail_after_hangup env w b tone target :
  let w' := hangupCall w in
  muteCall b w' = (false, w')
  /\ holdCall b w' = (false, w')
  /\ toggleVideo b w' = (false, w')
  /\ switchCamera env w' = (false, w')
  /\ sendDtmf tone w' = (false, [])
  /\ transferCall env target w' = (false, [])
  /\ getCallState w' = Idle
  /\ debugAudioTracks w' = (mkReport "error" "No active call" None None, w').
Proof.
  intros w'. pose proof (hangupCall_clears w) as Hnone. fold w' in Hnone.
  unfold muteCall, holdCall, toggleVideo, switchCamera, sendDtmf,
    transferCall, getCallState, debugAudioTracks, activeSession.
  rewrite Hnone. repeat split.
Qed.

(** ** Mute, hold and video toggle on the track store *)

Lemma senderTracks_In w pc t :
  activePC w = Some pc ->
  In t (senderTracks w) ->
  exists s, In s (senders pc) /\ senderTrack (tracks w) s = Some t.
Proof.
  intros Hpc. unfold senderTracks. rewrite Hpc. intros Hin.
  apply list_elem_of_In, list_elem_of_omap in Hin as (s & Hs & Hst).
  exists s. by rewrite <- list_elem_of_In.
Qed.

Lemma toggleVideo_active b w pc :
  activePC w = Some pc ->
  toggleVideo b w = (true, forEachSender isVideo b pc w).
Proof.
  unfold activePC, toggleVideo. intros H.
  destruct (activeSession w) as [session|]; [|done].
  destruct (sessionDescriptionHandler session) as [sdh|]; [|done].
  by rewrite H.
Qed.

Lemma toggleVideo_frame b w :
  currentSession (snd (toggleVideo b w)) = currentSession w
  /\ sessions (snd (toggleVideo b w)) = sessions w
  /\ isOnHold (snd (toggleVideo b w)) = isOnHold w
  /\ trace (snd (toggleVideo b w)) = trace w.
Proof.
  unfold toggleVideo.
  destruct (activeSession w) as [session|]; [|done].
  destruct (sessionDescriptionHandler session) as [sdh|]; [|done].
  by destruct (peerConnection sdh).
Qed.

Lemma isAudio_setEnabled b t : isAudio (setEnabled b t) = isAudio t.
Proof. reflexivity. Qed.

Lemma isVideo_setEnabled b t : isVideo (setEnabled b t) = isVideo t.
Proof. reflexivity. Qed.

Lemma isAudio_not_video t : isAudio t = negb (isVideo t).
Proof. unfold isAudio, isVideo. by destruct (kind t). Qed.

(** X2: [muteCall] and [toggleVideo] commute: the first writes audio
    tracks only, the second video tracks only, so either order leaves the
    same world. *)
Theorem muteCall_toggleVideo_commute m v w :
  snd (toggleVideo v (snd (muteCall m w)))
  = snd (muteCall m (snd (toggleVideo v w))).
Proof.
  destruct (activePC w) as [pc|] eqn:Hpc.
  - rewrite (muteCall_active m w pc Hpc), (toggleVideo_active v w pc Hpc).
    simpl.
    rewrite (toggleVideo_active v (forEachSender isAudio (negb m) pc w) pc),
            (muteCall_active m (forEachSender isVideo v pc w) pc)
      by (by rewrite <- Hpc).
    simpl. unfold forEachSender, setTracks. simpl. f_equal.
    apply list_eq. intros tid.
    rewrite !foldl_enableSender
      by (intros; first [apply isAudio_setEnabled | apply isVideo_setEnabled]).
    destruct (tracks w !! tid) as [t|]; simpl; [|done]. f_equal.
    rewrite (isAudio_not_video t).
    destruct (isVideo t) eqn:Hv, (touches (senders pc) tid); simpl;
      rewrite ?isAudio_setEnabled, ?isVideo_setEnabled, ?(isAudio_not_video t),
        ?Hv; simpl; try done.
  - assert (Hm : muteCall m w = (false, w)).
    { unfold muteCall, activePC in *.
      destruct (activeSession w) as [session|]; [|done].
      destruct (sessionDescriptionHandler session) as [sdh|]; [|done].
      by rewrite Hpc. }
    assert (Hv : toggleVideo v w = (false, w)).
    { unfold toggleVideo, activePC in *.
      destruct (activeSession w) as [session|]; [|done].
      destruct (sessionDescriptionHandler session) as [sdh|]; [|done].
      by rewrite Hpc. }
    rewrite Hm, Hv. simpl. by rewrite Hm, Hv.
Qed.

Lemma forEachSender_keeps cond v pc w tid t :
  (forall b t, cond (setEnabled b t) = cond t) ->
  tracks w !! tid = Some t ->
  exists t',
    tracks (forEachSender cond v pc w) !! tid = Some t'
    /\ kind t' = kind t /\ readyState t' = readyState t
    /\ muted t' = muted t /\ facingMode t' = facingMode t
    /\ (touches (senders pc) tid = false -> t' = t).
Proof.
  intros Hcond Ht. unfold forEachSender. simpl.
  rewrite (foldl_enableSender cond v _ Hcond), Ht. simpl.
  eexists. split; [reflexivity|].
  destruct (cond t && touches (senders pc) tid) eqn:Hc; simpl.
  - repeat split. intros Hno. rewrite Hno, andb_false_r in Hc. done.
  - repeat split.
Qed.

Lemma applySwitch_keeps op w tid t :
  tracks w !! tid = Some t ->
  exists t',
    tracks (applySwitch w op) !! tid = Some t'
    /\ kind t' = kind t /\ readyState t' = readyState t
    /\ muted t' = muted t /\ facingMode t' = facingMode t.
Proof.
  intros Ht.
  assert (Hsame : exists t', tracks w !! tid = Some t'
            /\ kind t' = kind t /\ readyState t' = readyState t
            /\ muted t' = muted t /\ facingMode t' = facingMode t)
    by (by exists t).
  destruct op as [b|b|b]; simpl.
  - unfold muteCall.
    destruct (activeSession w) as [session|]; [|done].
    destruct (sessionDescriptionHandler session) as [sdh|]; [|done].
    destruct (peerConnection sdh) as [pc|]; [|done]. simpl.
    destruct (forEachSender_keeps isAudio (negb b) pc w tid t)
      as (t' & H1 & H2 & H3 & H4 & H5 & _); [done|done|].
    by exists t'.
  - unfold holdCall.
    destruct (activeSession w) as [session|]; [|done].
    destruct (sessionDescriptionHandler session) as [sdh|]; [|done].
    destruct (peerConnection sdh) as [pc|]; [|done]. simpl.
    destruct (forEachSender_keeps (fun _ => true) (negb b) pc
                (setIsOnHold b w) tid t)
      as (t' & H1 & H2 & H3 & H4 & H5 & _); [done|done|].
    by exists t'.
  - unfold toggleVideo.
    destruct (activeSession w) as [session|]; [|done].
    destruct (sessionDescriptionHandler session) as [sdh|]; [|done].
    destruct (peerConnection sdh) as [pc|]; [|done]. simpl.
    destruct (forEachSender_keeps isVideo b pc w tid t)
      as (t' & H1 & H2 & H3 & H4 & H5 & _); [done|done|].
    by exists t'.
Qed.

Lemma applySwitch_length op w :
  length (tracks (applySwitch w op)) = length (tracks w).
Proof.
  assert (Hfold : forall cond v pc w0,
             length (tracks (forEachSender cond v pc w0)) = length (tracks w0)).
  { intros cond v pc w0. unfold forEachSender. simpl.
    generalize (tracks w0). induction (senders pc) as [|s ss IH]; intros ts;
      simpl; [done|].
    by rewrite IH, enableSender_length. }
  destruct op as [b|b|b]; simpl.
  - unfold muteCall.
    destruct (activeSession w) as [session|]; [|done].
    destruct (sessionDescriptionHandler session) as [sdh|]; [|done].
    destruct (peerConnection sdh) as [pc|]; [|done]. apply Hfold.
  - unfold holdCall.
    destruct (activeSession w) as [session|]; [|done].
    destruct (sessionDescriptionHandler session) as [sdh|]; [|done].
    destruct (peerConnection sdh) as [pc|]; [|done].
    exact (Hfold _ _ pc (setIsOnHold b w)).
  - unfold toggleVideo.
    destruct (activeSession w) as [session|]; [|done].
    destruct (sessionDescriptionHandler session) as [sdh|]; [|done].
    destruct (peerConnection sdh) as [pc|]; [|done]. apply Hfold.
Qed.

Lemma applySwitch_frame op w :
  currentSession (applySwitch w op) = currentSession w
  /\ sessions (applySwitch w op) = sessions w
  /\ trace (applySwitch w op) = trace w.
Proof.
  destruct op as [b|b|b]; simpl.
  - destruct (muteCall_frame b w) as (H1 & H2 & _ & H3). done.
  - destruct (holdCall_frame b w) as (H1 & H2 & H3). done.
  - destruct (toggleVideo_frame b w) as (H1 & H2 & _ & H3). done.
Qed.

(** X3: whatever sequence of [muteCall], [holdCall] and [toggleVideo]
    requests is run, the only thing that changes in the track store is the
    [enabled] flag: no track is added, removed or stopped, and kind, muted
    state and facing mode stay; the sessions, the active-session reference
    and the signalling trace stay as well. *)
Theorem switches_only_flip_enabled ops w :
  let w' := runSwitches ops w in
  length (tracks w') = length (tracks w)
  /\ (forall tid t, tracks w !! tid = Some t ->
        exists t', tracks w' !! tid = Some t'
                   /\ kind t' = kind t /\ readyState t' = readyState t
                   /\ muted t' = muted t /\ facingMode t' = facingMode t)
  /\ sessions w' = sessions w
  /\ currentSession w' = currentSession w
  /\ trace w' = trace w.
Proof.
  unfold runSwitches. revert w.
  induction ops as [|op ops IH]; intros w; simpl.
  - repeat split. intros tid t Ht. by exists t.
  - destruct (IH (applySwitch w op)) as (Hlen & Hkeep & Hs & Hc & Htr).
    destruct (applySwitch_frame op w) as (Hc1 & Hs1 & Htr1).
    split; [by rewrite Hlen, applySwitch_length|].
    split; [|by rewrite Hs, Hc, Htr].
    intros tid t Ht.
    destruct (applySwitch_keeps op w tid t Ht)
      as (t1 & Ht1 & Hk1 & Hr1 & Hm1 & Hf1).
    destruct (Hkeep tid t1 Ht1) as (t2 & Ht2 & Hk2 & Hr2 & Hm2 & Hf2).
    exists t2. split; [done|]. by rewrite Hk2, Hr2, Hm2, Hf2.
Qed.

(** X4: [holdCall(false)] switches on the track of every sender of the
    active session, audio and video alike, whatever [muteCall] or
    [toggleVideo] had written before. *)
Theorem resume_enables_every_sender w pc t :
  activePC w = Some pc ->
  In t (senderTracks (snd (holdCall false w))) ->
  enabled t = true.
Proof.
  intros Hpc Hin. rewrite (holdCall_active _ _ _ Hpc) in Hin. simpl in Hin.
  apply (senderTracks_In _ pc) in Hin as (s & Hs & Hst).
  - by eapply (forEachSender_enabled (fun _ => true) true).
  - by rewrite <- Hpc.
Qed.

Lemma resume_enables_every_sender_witness :
  In micTrack (senderTracks (snd (holdCall false mutedCall)))
  /\ enabled micTrack = true.
Proof.
  split; [by left|].
  apply (resume_enables_every_sender mutedCall samplePC micTrack).
  - reflexivity.
  - by left.
Defined.

(** X5: in the call-control panel, putting a call on hold and resuming it
    leaves the mute and video buttons as they were, yet every sender's track
    is switched on: a call that showed as muted still shows as muted while
    its microphone track is enabled. *)
Theorem hold_resume_forgets_mute ui w pc :
  activePC w = Some pc ->
  CallControls.isHeld ui = false ->
  let '(ui1, w1) := CallControls.handleHoldToggle ui w in
  let '(ui2, w2) := CallControls.handleHoldToggle ui1 w1 in
  ui2 = ui
  /\ isCallOnHold w2 = false
  /\ (forall t, In t (senderTracks w2) -> enabled t = true).
Proof.
  intros Hpc Hheld. unfold CallControls.handleHoldToggle.
  rewrite Hheld. simpl.
  rewrite (holdCall_active true w pc Hpc). simpl.
  set (w1 := forEachSender _ _ _ _).
  assert (Hpc1 : activePC w1 = Some pc) by (by rewrite <- Hpc).
  rewrite (holdCall_active false w1 pc Hpc1). simpl.
  split; [destruct ui; simpl in *; by subst|].
  split; [done|].
  intros t Hin.
  pose proof (resume_enables_every_sender w1 pc t Hpc1) as H.
  rewrite (holdCall_active false w1 pc Hpc1) in H. by apply H.
Qed.

Lemma hold_resume_forgets_mute_witness :
  let muted := CallControls.handleMuteToggle CallControls.mounted sampleCall in
  let dark := CallControls.handleVideoToggle (fst muted) (snd muted) in
  let '(ui1, w1) := CallControls.handleHoldToggle (fst dark) (snd dark) in
  let '(ui2, w2) := CallControls.handleHoldToggle ui1 w1 in
  CallControls.isMuted ui2 = true
  /\ CallControls.isVideoEnabled ui2 = false
  /\ (forall t, In t (senderTracks w2) -> enabled t = true).
Proof.
  intros muted dark.
  pose proof (hold_resume_forgets_mute (fst dark) (snd dark) samplePC
                eq_refl eq_refl) as H.
  destruct (CallControls.handleHoldToggle (fst dark) (snd dark)) as [ui1 w1].
  destruct (CallControls.handleHoldToggle ui1 w1) as [ui2 w2].
  destruct H as (-> & _ & H).
  split; [reflexivity|]. split; [reflexivity | exact H].
Defined.

Lemma switches_only_flip_enabled_witness :
  tracks (runSwitches [SwitchMute true; SwitchVideo false; SwitchHold true]
            sampleCall)
  !! 0 = Some (setEnabled false micTrack).
Proof.
  destruct (switches_only_flip_enabled
              [SwitchMute true; SwitchVideo false; SwitchHold true] sampleCall)
    as (_ & Hkeep & _).
  destruct (Hkeep 0 micTrack eq_refl) as (t' & Ht' & _).
  vm_compute in Ht'. injection Ht' as <-. reflexivity.
Defined.

(** ** Audio diagnostics, in general *)

Lemma setEnabled_same t : enabled t = true -> setEnabled true t = t.
Proof. destruct t; simpl. by intros ->. Qed.

(** On the track store, the diagnosis is the loop of [muteCall(false)]. *)
Lemma inspectSender_tracks i s acc :
  iTracks (inspectSender i s acc) = enableSender isAudio true (iTracks acc) s.
Proof.
  unfold inspectSender, enableSender.
  destruct (track s) as [tid|]; simpl.
  - destruct (iTracks acc !! tid) as [t|] eqn:Ht; simpl.
    + destruct (isAudio t); simpl.
      * destruct (enabled t) eqn:He; simpl.
        -- destruct (holdsAudio _ s); simpl;
             by rewrite setEnabled_same, list_insert_id.
        -- by destruct (holdsAudio _ s).
      * by destruct (holdsAudio _ s).
    + by destruct (holdsAudio _ s).
  - by destruct (holdsAudio _ s).
Qed.

Lemma inspectSenders_tracks ss : forall i acc,
  iTracks (inspectSenders i ss acc)
  = foldl (enableSender isAudio true) (iTracks acc) ss.
Proof.
  induction ss as [|s ss IH]; intros i acc; simpl; [done|].
  by rewrite IH, inspectSender_tracks.
Qed.

Lemma fixedCount_snoc infos info :
  fixedCount (infos ++ [info])
  = fixedCount infos + (if isFixed info then 1 else 0).
Proof.
  rewrite fixedCount_app. unfold fixedCount at 2. simpl.
  by destruct (isFixed info).
Qed.

(** One entry per sender, and [fixedTracks] grows with the flagged ones. *)
Lemma inspectSender_counts i s acc :
  length (trackInfo (inspectSender i s acc)) = S (length (trackInfo acc))
  /\ fixedTracks (inspectSender i s acc) + fixedCount (trackInfo acc)
     = fixedTracks acc + fixedCount (trackInfo (inspectSender i s acc)).
Proof.
  unfold inspectSender.
  destruct (track s) as [tid|]; simpl.
  - destruct (iTracks acc !! tid) as [t|] eqn:Ht; simpl.
    + destruct (isAudio t); simpl.
      * destruct (enabled t) eqn:He; simpl;
          destruct (holdsAudio _ s); simpl;
          rewrite length_app, fixedCount_snoc; simpl; lia.
      * destruct (holdsAudio _ s); simpl;
          rewrite length_app, fixedCount_snoc; simpl; lia.
    + destruct (holdsAudio _ s); simpl;
        rewrite length_app, fixedCount_snoc; simpl; lia.
  - destruct (holdsAudio _ s); simpl;
      rewrite length_app, fixedCount_snoc; simpl; lia.
Qed.

Lemma inspectSenders_counts ss : forall i acc,
  length (trackInfo (inspectSenders i ss acc))
  = length (trackInfo acc) + length ss
  /\ fixedTracks (inspectSenders i ss acc) + fixedCount (trackInfo acc)
     = fixedTracks acc + fixedCount (trackInfo (inspectSenders i ss acc)).
Proof.
  induction ss as [|s ss IH]; intros i acc; simpl; [lia|].
  destruct (IH (S i) (inspectSender i s acc)) as [Hlen Hfix].
  destruct (inspectSender_counts i s acc) as [Hlen1 Hfix1].
  lia.
Qed.

Lemma debugAudioTracks_world w pc :
  activePC w = Some pc ->
  exists effects,
    snd (debugAudioTracks w)
    = emit effects (setTracks (tracks (forEachSender isAudio true pc w)) w).
Proof.
  intros Hpc. rewrite (debugAudioTracks_active _ _ Hpc). cbv zeta.
  rewrite inspectSenders_tracks. simpl.
  destruct (length _ =? 0)%nat; simpl; eexists; reflexivity.
Qed.

(** X6: the report of [debugAudioTracks] has one entry per sender of the
    peer connection, and the number a success report announces is the
    number of entries it flags as fixed; "All audio tracks are properly
    configured" is announced exactly when no entry is flagged. *)
Theorem debugAudioTracks_counts_flagged_entries w pc :
  activePC w = Some pc ->
  let r := fst (debugAudioTracks w) in
  let n := fixedCount (reportedTracks r) in
  length (reportedTracks r) = length (senders pc)
  /\ (status r = "success" ->
      message r = if (0 <? n)%nat
                  then "Fixed " +:+ pretty n +:+ " audio tracks"
                  else "All audio tracks are properly configured").
Proof.
  intros Hpc. rewrite (debugAudioTracks_active _ _ Hpc). cbv zeta.
  destruct (inspectSenders_counts (senders pc) 0
              (mkInspection (tracks w) [] 0 false [])) as [Hlen Hfix].
  simpl in Hlen, Hfix. unfold fixedCount at 1 in Hfix. simpl in Hfix.
  destruct (length _ =? 0)%nat; simpl.
  - split; [done|]. discriminate.
  - split; [done|]. intros _. by rewrite Nat.add_0_r in Hfix; rewrite Hfix.
Qed.

Lemma debugAudioTracks_counts_flagged_entries_witness :
  length (reportedTracks (fst (debugAudioTracks mutedCall))) = 3
  /\ message (fst (debugAudioTracks mutedCall)) = "Fixed 1 audio tracks".
Proof.
  destruct (debugAudioTracks_counts_flagged_entries mutedCall samplePC eq_refl)
    as [Hlen Hmsg].
  split; [exact Hlen|]. apply Hmsg. reflexivity.
Defined.

(** X7: after [debugAudioTracks] on a session with a peer connection every
    audio sender's track is enabled, also when the call is muted or on
    hold; the hold flag, the sessions and every track that is not an audio
    track are left as they were. *)
Theorem debugAudioTracks_enables_audio_only w pc :
  activePC w = Some pc ->
  let w' := snd (debugAudioTracks w) in
  (forall t, In t (audioSenderTracks w') -> enabled t = true)
  /\ (forall tid t, tracks w !! tid = Some t -> isAudio t = false ->
                    tracks w' !! tid = Some t)
  /\ isCallOnHold w' = isCallOnHold w
  /\ sessions w' = sessions w
  /\ currentSession w' = currentSession w.
Proof.
  intros Hpc. destruct (debugAudioTracks_world w pc Hpc) as (effects & ->).
  cbv zeta. repeat split.
  - intros t Hin.
    apply (audioSenderTracks_In _ pc) in Hin as (s & Hs & Hst & Ha);
      [|by rewrite <- Hpc].
    by eapply (forEachSender_enabled isAudio true pc w s t).
  - intros tid t Ht Ha. simpl.
    rewrite (foldl_enableSender isAudio true)
      by (intros; apply isAudio_setEnabled).
    by rewrite Ht; simpl; rewrite Ha.
Qed.

Lemma debugAudioTracks_enables_audio_only_witness :
  let held := snd (holdCall true sampleCall) in
  isCallOnHold (snd (debugAudioTracks held)) = true
  /\ tracks (snd (debugAudioTracks held)) !! 1 = Some (setEnabled false camTrack).
Proof.
  destruct (debugAudioTracks_enables_audio_only
              (snd (holdCall true sampleCall)) samplePC eq_refl)
    as (_ & Hvideo & Hhold & _).
  split; [exact Hhold|]. apply Hvideo; reflexivity.
Defined.

(** When every audio sender is enabled the loop finds nothing to repair. *)
Lemma inspectSenders_sound_all ss : forall i acc,
  (forall s t, In s ss -> senderTrack (iTracks acc) s = Some t ->
               isAudio t = true -> enabled t = true) ->
  iTracks (inspectSenders i ss acc) = iTracks acc
  /\ fixedTracks (inspectSenders i ss acc) = fixedTracks acc
  /\ fixedCount (trackInfo (inspectSenders i ss acc))
     = fixedCount (trackInfo acc).
Proof.
  induction ss as [|s ss IH]; intros i acc Hok; simpl; [done|].
  assert (Hstep : iTracks (inspectSender i s acc) = iTracks acc
                  /\ fixedTracks (inspectSender i s acc) = fixedTracks acc
                  /\ fixedCount (trackInfo (inspectSender i s acc))
                     = fixedCount (trackInfo acc)).
  { destruct (holdsAudio (iTracks acc) s) eqn:Hh.
    - unfold holdsAudio, senderTrack in Hh.
      destruct (track s) as [tid|] eqn:Htid; [|done].
      destruct (iTracks acc !! tid) as [t|] eqn:Ht; [|done].
      destruct (inspectSender_sound i s acc tid t)
        as (info & effects & Hinfo & ->); try done.
      + apply (Hok s); [by left| |done]. unfold senderTrack. by rewrite Htid.
      + simpl. rewrite fixedCount_snoc, Hinfo. repeat split. lia.
    - destruct (inspectSender_quiet i s acc Hh) as (info & Hinfo & ->).
      simpl. rewrite fixedCount_snoc, Hinfo. repeat split. lia. }
  destruct Hstep as (Ht & Hf & Hc).
  destruct (IH (S i) (inspectSender i s acc)) as (Ht' & Hf' & Hc').
  { intros s' t Hin. rewrite Ht. apply Hok. by right. }
  by rewrite Ht', Hf', Hc'.
Qed.

(** X8: a second [debugAudioTracks] right after a first one never repairs
    anything, whatever the senders are: no entry is flagged, the tracks stay
    as the first call left them, and a success report reads "All audio
    tracks are properly configured". *)
Theorem debugAudioTracks_second_call_quiet w pc :
  activePC w = Some pc ->
  let w1 := snd (debugAudioTracks w) in
  let r2 := fst (debugAudioTracks w1) in
  fixedCount (reportedTracks r2) = 0
  /\ tracks (snd (debugAudioTracks w1)) = tracks w1
  /\ (status r2 = "success" ->
      message r2 = "All audio tracks are properly configured").
Proof.
  intros Hpc. destruct (debugAudioTracks_world w pc Hpc) as (effects & Hw1).
  cbv zeta. rewrite Hw1.
  set (w1 := emit effects _).
  assert (Hpc1 : activePC w1 = Some pc) by (by rewrite <- Hpc).
  destruct (inspectSenders_sound_all (senders pc) 0
              (mkInspection (tracks w1) [] 0 false []))
    as (Ht & Hf & Hc).
  { intros s t Hin Hst Ha. simpl in Hst.
    by eapply (forEachSender_enabled isAudio true pc w s t). }
  simpl in Ht, Hf, Hc.
  rewrite (debugAudioTracks_active _ _ Hpc1). cbv zeta.
  destruct (length _ =? 0)%nat; simpl; rewrite ?Ht, ?Hf, ?Hc;
    repeat split; try done.
Qed.

Lemma debugAudioTracks_second_call_quiet_witness :
  message (fst (debugAudioTracks (snd (debugAudioTracks mutedCall))))
  = "All audio tracks are properly configured".
Proof.
  destruct (debugAudioTracks_second_call_quiet mutedCall samplePC eq_refl)
    as (_ & _ & H).
  apply H. reflexivity.
Defined.

(** ** Hanging up and call waiting *)

(** X9: on a session that is neither [Established] nor [Initial], such as
    an outbound call the engine has moved to [Establishing], [hangupCall]
    sends nothing to the engine: no [bye], [cancel] or [reject].  It still
    drops the reference and registers its listener on the session, so the
    call state reads [Idle] while the call has not been ended. *)
Theorem hangupCall_skips_ringing_call w sid session :
  currentSession w = Some sid ->
  sessions w !! sid = Some session ->
  state session <> Established -> state session <> Initial ->
  trace (hangupCall w) = trace w
  /\ currentSession (hangupCall w) = None
  /\ getCallState (hangupCall w) = Idle
  /\ sessions (hangupCall w) = <[sid := addListener HangupListener session]>
                                 (sessions w)
  /\ state <$> sessions (hangupCall w) !! sid = Some (state session).
Proof.
  intros Hcur Hs Hne Hni.
  assert (Hquiet : terminationRequest sid session = []).
  { unfold terminationRequest. by destruct (state session). }
  assert (Hw : hangupCall w
               = setSessions (<[sid := addListener HangupListener session]>
                                (sessions w))
                   (setCurrentSession None (emit [] w))).
  { unfold hangupCall, updateSession. rewrite Hcur, Hs, Hquiet. simpl.
    by rewrite Hs. }
  split; [rewrite Hw; simpl; apply app_nil_r|].
  split; [apply hangupCall_clears|].
  split; [unfold getCallState, activeSession; by rewrite hangupCall_clears|].
  split; [by rewrite Hw|].
  rewrite Hw. simpl.
  rewrite list_lookup_insert_eq by (by eapply lookup_lt_Some). done.
Qed.

Lemma hangupCall_skips_ringing_call_witness :
  trace (hangupCall dialingCall) = []
  /\ getCallState (hangupCall dialingCall) = Idle
  /\ state <$> sessions (hangupCall dialingCall) !! 0 = Some Establishing.
Proof.
  destruct (hangupCall_skips_ringing_call dialingCall 0
              (mkSession Inviter Establishing
                 (Some (mkSDH (Some samplePC))) []))
    as (Htrace & _ & Hstate & _ & Hkept);
    [reflexivity | reflexivity | discriminate | discriminate |].
  split; [exact Htrace|]. split; [exact Hstate | exact Hkept].
Defined.

(** X10: an invitation delivered while another call is active takes over
    [currentSession]; a [hangupCall] that follows rejects the invitation,
    sends no [bye] to the call that was active, leaves that call's session
    object as it was, and ends with no active session. *)
Theorem invitation_displaces_active_call w invitation s :
  sessions w !! invitation = Some s ->
  sessionClass s = Invitation ->
  state s = Initial ->
  let w' := hangupCall (onInvite invitation w) in
  trace w' = trace w ++ [Reject invitation]
  /\ currentSession w' = None
  /\ (forall sid, sid <> invitation -> sessions w' !! sid = sessions w !! sid).
Proof.
  intros Hs Hclass Hstate. unfold hangupCall, onInvite. simpl.
  rewrite Hs. unfold updateSession. simpl. rewrite Hs. simpl.
  unfold terminationRequest. rewrite Hstate, Hclass.
  repeat split. intros sid Hne. by rewrite list_lookup_insert_ne.
Qed.

Lemma invitation_displaces_active_call_witness :
  let w' := hangupCall (onInvite 1 callWaiting) in
  trace w' = [Reject 1]
  /\ sessions w' !! 0 = sessions callWaiting !! 0.
Proof.
  destruct (invitation_displaces_active_call callWaiting 1
              (mkSession Invitation Initial None []) eq_refl eq_refl eq_refl)
    as (Htrace & _ & Hkeep).
  split; [exact Htrace|]. apply Hkeep. discriminate.
Defined.

(** ** Placing and answering calls *)

Lemma updateSession_last sid f x ss s0 :
  sessions x = ss ++ [s0] -> sid = length ss ->
  updateSession sid f x = setSessions (ss ++ [f s0]) x.
Proof.
  intros Hx ->. unfold updateSession. rewrite Hx.
  rewrite lookup_app_r, Nat.sub_diag by done. simpl.
  rewrite insert_app_r_alt, Nat.sub_diag by done. done.
Qed.

(** X11: with media granted and a target that parses, [makeCall] creates
    one inviter behind the sessions there were, registers its three
    listeners on it before it sends the invite, appends the captured tracks
    to the track store and points [currentSession] at the inviter.  The
    inviter is left as the engine has it when [invite()] settles.  No [bye]
    or [cancel] is sent for a call that was active and the older session
    objects are left alone.  All of this holds whether or not [invite()]
    succeeds: when it rejects, the error is raised and [currentSession]
    stays on the failed inviter. *)
Theorem makeCall_installs_inviter
    env target withVideo w agent captured formatted :
  userMedia env = inr captured ->
  ua w = Some agent ->
  formatTarget (ua w) target = Returned formatted ->
  uriGrammar env formatted = true ->
  let inviter := length (sessions w) in
  let stream := seq (length (tracks w)) (length captured) in
  let w' := snd (makeCall env target withVideo w) in
  fst (makeCall env target withVideo w)
  = match inviteOutcome env with
    | None => Returned inviter
    | Some error => Thrown (makeCallCatch error)
    end
  /\ sessions w'
     = sessions w
       ++ [afterInvite env
             (mkSession Inviter Initial None
                [SdpInterceptListener; AddTracksListener stream;
                 EstablishedListener withVideo])]
  /\ tracks w' = tracks w ++ captured
  /\ currentSession w' = Some inviter
  /\ trace w' = trace w ++ [GetUserMedia true (VideoFlag withVideo);
                            NewInviter inviter (mkURI formatted) withVideo;
                            Invite inviter].
Proof.
  intros Hmedia Hua Hformat Hgrammar inviter stream.
  unfold makeCall, allocTracks. rewrite Hmedia. simpl.
  rewrite Hformat. unfold makeURI. rewrite Hgrammar, Hua.
  set (s0 := mkSession Inviter Initial None []).
  match goal with
  | |- context [updateSession ?i (addListener SdpInterceptListener) ?x] =>
      rewrite (updateSession_last i (addListener SdpInterceptListener) x
                 (sessions w) s0 eq_refl eq_refl)
  end.
  match goal with
  | |- context [updateSession ?i (addListener (AddTracksListener ?st)) ?x] =>
      rewrite (updateSession_last i (addListener (AddTracksListener st)) x
                 (sessions w) (addListener SdpInterceptListener s0)
                 eq_refl eq_refl)
  end.
  match goal with
  | |- context [updateSession ?i (addListener (EstablishedListener ?v)) ?x] =>
      rewrite (updateSession_last i (addListener (EstablishedListener v)) x
                 (sessions w) _ eq_refl eq_refl)
  end.
  match goal with
  | |- context [updateSession ?i (afterInvite env) ?x] =>
      rewrite (updateSession_last i (afterInvite env) x
                 (sessions w) _ eq_refl eq_refl)
  end.
  destruct (inviteOutcome env) as [error|]; simpl;
    (repeat split; by rewrite <- !app_assoc).
Qed.

Lemma makeCall_installs_inviter_witness :
  let w' := snd (makeCall grantingEnv "carol" true sampleCall) in
  currentSession w' = Some 1
  /\ length (sessions w') = 2
  /\ trace w' = [GetUserMedia true (VideoFlag true);
                 NewInviter 1 (mkURI "sip:carol@example.com") true; Invite 1].
Proof.
  destruct (makeCall_installs_inviter grantingEnv "carol" true sampleCall
              alice [micTrack] "sip:carol@example.com"
              eq_refl eq_refl eq_refl eq_refl)
    as (_ & Hsessions & _ & Hcur & Htrace).
  split; [exact Hcur|]. split; [by rewrite Hsessions | exact Htrace].
Defined.

(** X12: when local media acquisition fails, [makeCall] has done nothing
    but ask for the media: no session is created and [currentSession] stays.
    A [NotAllowedError] or [PermissionDeniedError] is raised as the
    "access denied" error, a [NotFoundError] as the "no microphone or
    camera" error, any other error as it is. *)
Theorem makeCall_media_failure env target withVideo w error :
  userMedia env = inl error ->
  snd (makeCall env target withVideo w)
  = emit [GetUserMedia true (VideoFlag withVideo)] w
  /\ (namedDOMException
        ["NotAllowedError"; "PermissionDeniedError"; "NotFoundError"] error
      = false ->
      fst (makeCall env target withVideo w) = Thrown error)
  /\ (namedDOMException ["NotAllowedError"; "PermissionDeniedError"] error
      = true ->
      fst (makeCall env target withVideo w)
      = Thrown (Error "Microphone or camera access denied. Please allow access in your browser settings."))
  /\ (namedDOMException ["NotFoundError"] error = true ->
      fst (makeCall env target withVideo w)
      = Thrown (Error "No microphone or camera found. Please check your device connections.")).
Proof.
  intros Hmedia. unfold makeCall. rewrite Hmedia. simpl.
  split; [done|]. unfold makeCallCatch.
  destruct error as [name msg|msg|msg]; simpl.
  2,3: by (repeat split; try discriminate).
  destruct (String.eqb name "NotAllowedError") eqn:H1; simpl.
  { repeat split; try discriminate.
    apply String.eqb_eq in H1 as ->. discriminate. }
  destruct (String.eqb name "PermissionDeniedError") eqn:H2; simpl.
  { repeat split; try discriminate.
    apply String.eqb_eq in H2 as ->. discriminate. }
  destruct (String.eqb name "NotFoundError") eqn:H3; simpl;
    repeat split; try discriminate.
Qed.

Lemma makeCall_media_failure_witness :
  fst (makeCall deniedEnv "bob" false idleClient)
  = Thrown (Error "Microphone or camera access denied. Please allow access in your browser settings.")
  /\ snd (makeCall deniedEnv "bob" false idleClient)
     = emit [GetUserMedia true (VideoFlag false)] idleClient.
Proof.
  destruct (makeCall_media_failure deniedEnv "bob" false idleClient
              (DOMException "NotAllowedError" "Permission denied") eq_refl)
    as (Hw & _ & Hdenied & _).
  split; [apply Hdenied; reflexivity | exact Hw].
Defined.



(** X14: when media was granted but [accept()] rejects with an error that
    is not a permission or missing-device [DOMException], [acceptCall]
    calls [invitation.reject()] after the accept and raises that error;
    [currentSession] is not set to the invitation, and the captured tracks
    stay in the store as they were delivered: they are not stopped. *)
Theorem acceptCall_accept_failure env invitation withVideo w captured error :
  userMedia env = inr captured ->
  acceptOutcome env = Some error ->
  describeMediaError error = None ->
  let w' := snd (acceptCall env invitation withVideo w) in
  fst (acceptCall env invitation withVideo w) = Thrown error
  /\ trace w' = trace w ++ [GetUserMedia true (VideoFlag withVideo);
                            Accept invitation withVideo; Reject invitation]
  /\ currentSession w' = currentSession w
  /\ tracks w' = tracks w ++ captured.
Proof.
  intros Hmedia Haccept Hplain. unfold acceptCall, acceptCallCatch, allocTracks.
  rewrite Hmedia, Haccept, Hplain. simpl.
  repeat match goal with
         | |- context [updateSession ?s ?f ?x] =>
             destruct (updateSession_frame s f x) as (_ & Hc & _ & Ht & Htr);
             rewrite ?Hc, ?Ht, ?Htr; clear Hc Ht Htr; simpl
         end.
  rewrite <- !app_assoc. done.
Qed.

Lemma acceptCall_accept_failure_witness :
  fst (acceptCall failingAcceptEnv 0 true ringingCall)
  = Thrown (Error "Invalid session state")
  /\ trace (snd (acceptCall failingAcceptEnv 0 true ringingCall))
     = [GetUserMedia true (VideoFlag true); Accept 0 true; Reject 0].
Proof.
  destruct (acceptCall_accept_failure failingAcceptEnv 0 true ringingCall
              [micTrack] (Error "Invalid session state")
              eq_refl eq_refl eq_refl)
    as (Hthrown & Htrace & _).
  split; [exact Hthrown | exact Htrace].
Defined.

(** ** Transfer, tones and messages *)

(** X15: [transferCall] serves outbound sessions only: on an answered
    invitation it answers [false] and refers nothing, whatever the target.
    On an inviter it refers to the normalised target when that parses; a
    target that does not parse, or a bare target while no user agent
    exists, gives [false] without a refer and without an exception. *)
Theorem transferCall_outbound_only env target w sid session :
  currentSession w = Some sid ->
  sessions w !! sid = Some session ->
  (sessionClass session = Invitation ->
   transferCall env target w = (false, []))
  /\ (sessionClass session = Inviter ->
      match formatTarget (ua w) target with
      | Returned formatted =>
          transferCall env target w
          = if uriGrammar env formatted
            then (true, [ReferTo sid (mkURI formatted)])
            else (false, [])
      | Thrown _ => transferCall env target w = (false, [])
      end).
Proof.
  intros Hcur Hs. unfold transferCall. rewrite Hcur, Hs.
  split; intros ->; [done|].
  destruct (formatTarget (ua w) target) as [formatted|error]; [|done].
  unfold makeURI. by destruct (uriGrammar env formatted).
Qed.

Lemma transferCall_outbound_only_witness :
  transferCall grantingEnv "carol" inboundCall = (false, [])
  /\ transferCall grantingEnv "carol" sampleCall
     = (true, [ReferTo 0 (mkURI "sip:carol@example.com")]).
Proof.
  split.
  - destruct (transferCall_outbound_only grantingEnv "carol" inboundCall 0
                (mkSession Invitation Established
                   (Some (mkSDH (Some samplePC))) []) eq_refl eq_refl)
      as [H _].
    apply H. reflexivity.
  - destruct (transferCall_outbound_only grantingEnv "carol" sampleCall 0
                (mkSession Inviter Established
                   (Some (mkSDH (Some samplePC))) []) eq_refl eq_refl)
      as [_ H].
    apply (H eq_refl).
Defined.

(** X16: a tone is forwarded while the call is on hold: after a successful
    [holdCall(true)], [sendDtmf] still answers [true] and hands the tone to
    the session's handler. *)
Theorem sendDtmf_while_on_hold tone w w1 sid :
  currentSession w = Some sid ->
  holdCall true w = (true, w1) ->
  isCallOnHold w1 = true
  /\ sendDtmf tone w1 = (true, [SendDtmfTone sid tone]).
Proof.
  intros Hcur Hhold.
  split; [by eapply holdCall_sets_flag|].
  destruct (holdCall_frame true w) as (Hc & Hs & _).
  rewrite Hhold in Hc, Hs. simpl in Hc, Hs.
  unfold sendDtmf. rewrite Hc, Hs, Hcur.
  unfold holdCall, activeSession in Hhold. rewrite Hcur in Hhold.
  destruct (sessions w !! sid) as [session|]; [|done].
  by destruct (sessionDescriptionHandler session).
Qed.

Lemma sendDtmf_while_on_hold_witness :
  sendDtmf "5" (snd (holdCall true sampleCall)) = (true, [SendDtmfTone 0 "5"]).
Proof.
  destruct (sendDtmf_while_on_hold "5" sampleCall
              (snd (holdCall true sampleCall)) 0 eq_refl eq_refl) as [_ H].
  exact H.
Defined.

(** X17: [sendMessage] fails without sending anything in two cases: with no
    user agent the promise is rejected with "SIP User Agent not initialized.
    Please register first.", for every target, bare ones included (no
    [TypeError] as in [makeCall]); with a user agent and a target that does
    not parse it is rejected with the invalid-target error. *)
Theorem sendMessage_refusals env target message responses w :
  (ua w = None ->
   sendMessage env target message responses w = (Rejected notInitialized, []))
  /\ (forall agent formatted,
        ua w = Some agent ->
        formatTarget (Some agent) target = Returned formatted ->
        uriGrammar env formatted = false ->
        sendMessage env target message responses w
        = (Rejected (invalidTarget formatted), [])).
Proof.
  unfold sendMessage. split.
  - by intros ->.
  - intros agent formatted -> -> Hbad. unfold makeURI. by rewrite Hbad.
Qed.

Lemma sendMessage_refusals_witness :
  sendMessage grantingEnv "bob" "hi" [OnAccept] unregistered
  = (Rejected notInitialized, [])
  /\ sendMessage grantingEnv "bo b" "hi" [OnAccept] idleClient
     = (Rejected (invalidTarget "sip:bo b@example.com"), []).
Proof.
  destruct (sendMessage_refusals grantingEnv "bob" "hi" [OnAccept] unregistered)
    as [H1 _].
  destruct (sendMessage_refusals grantingEnv "bo b" "hi" [OnAccept] idleClient)
    as [_ H2].
  split; [apply H1; reflexivity|].
  apply (H2 alice "sip:bo b@example.com"); reflexivity.
Defined.

Lemma responses_trying reasons p :
  foldl onMessageResponse p (map OnTrying reasons) = p.
Proof. revert p. induction reasons as [|r rs IH]; intros p; simpl; auto. Qed.

Lemma responses_settled responses p :
  p <> Pending -> foldl onMessageResponse p responses = p.
Proof.
  revert p. induction responses as [|r rs IH]; intros p Hp; simpl; [done|].
  assert (Hstep : onMessageResponse p r = p).
  { destruct r; simpl; try done; by destruct p. }
  rewrite Hstep. by apply IH.
Qed.

(** X18: a message that was sent settles with the first answer that is not
    a [Trying]: accepted resolves the promise, rejected rejects it with
    "Message rejected: <reason>", and later answers change nothing.  As long
    as only [Trying] answers arrive the promise stays pending: no timer
    ever settles it. *)
Theorem sendMessage_follows_first_answer
    env target message w agent formatted tryings later :
  ua w = Some agent ->
  formatTarget (Some agent) target = Returned formatted ->
  uriGrammar env formatted = true ->
  let sent := [MessageTo (mkURI formatted) message] in
  sendMessage env target message (map OnTrying tryings) w = (Pending, sent)
  /\ sendMessage env target message
       (map OnTrying tryings ++ OnAccept :: later) w
     = (Resolved, sent)
  /\ (forall reason,
        sendMessage env target message
          (map OnTrying tryings ++ OnReject reason :: later) w
        = (Rejected (messageRejected reason), sent)).
Proof.
  intros Hua Hformat Hok sent. unfold sendMessage, makeURI.
  rewrite Hua, Hformat, Hok. repeat split.
  - by rewrite responses_trying.
  - rewrite foldl_app, responses_trying. simpl.
    by rewrite responses_settled.
  - intros reason. rewrite foldl_app, responses_trying. simpl.
    by rewrite responses_settled.
Qed.

Lemma sendMessage_follows_first_answer_witness :
  sendMessage grantingEnv "bob" "hi"
    (map OnTrying ["Trying"] ++ OnReject "Forbidden" :: [OnAccept]) idleClient
  = (Rejected (messageRejected "Forbidden"),
     [MessageTo (mkURI "sip:bob@example.com") "hi"]).
Proof.
  destruct (sendMessage_follows_first_answer grantingEnv "bob" "hi" idleClient
              alice "sip:bob@example.com" ["Trying"] [OnAccept]
              eq_refl eq_refl eq_refl)
    as (_ & _ & H).
  apply H.
Defined.

(** ** Targets and domains *)

Lemma includes_takeUntil_same c s : includes c (takeUntil c s) = false.
Proof.
  induction s as [|a rest IH]; simpl; [done|].
  destruct (Ascii.eqb a c) eqn:Ha; simpl; [done|]. by rewrite Ha.
Qed.

Lemma includes_takeUntil c d s :
  includes c s = false -> includes c (takeUntil d s) = false.
Proof.
  induction s as [|a rest IH]; simpl; [done|].
  destruct (Ascii.eqb a c) eqn:Ha; [done|]. intros H.
  destruct (Ascii.eqb a d); simpl; [done|]. rewrite Ha. by apply IH.
Qed.

Lemma split_pieces_clean c s p : In p (split c s) -> includes c p = false.
Proof.
  revert p. induction s as [|a rest IH]; intros p; simpl.
  - by intros [<-|[]].
  - destruct (Ascii.eqb a c) eqn:Ha.
    + intros [<-|Hin]; [done|]. by apply IH.
    + destruct (split c rest) as [|piece pieces].
      * intros [<-|[]]. simpl. by rewrite Ha.
      * intros [<-|Hin].
        -- simpl. rewrite Ha. apply IH. by left.
        -- apply IH. by right.
Qed.

Lemma split_no_separator c s : includes c s = false -> split c s = [s].
Proof.
  induction s as [|a rest IH]; simpl; [done|].
  destruct (Ascii.eqb a c); [done|]. intros H. by rewrite IH.
Qed.

Lemma startsWith_app p s x :
  startsWith p s = true -> startsWith p (s +:+ x) = true.
Proof.
  revert s. induction p as [|a p IH]; intros s; [done|].
  destruct s as [|b s]; [done|]. rewrite append_cons. simpl.
  destruct (Ascii.eqb a b); [|done]. simpl. apply IH.
Qed.

(** X19: every target [formatTarget] returns begins with [sip:] or [sips:]
    and contains an ["@"], and [formatTarget] leaves such a text as it is,
    with or without a user agent: normalising twice is normalising once. *)
Theorem formatTarget_normal_form agent target formatted :
  formatTarget agent target = Returned formatted ->
  (startsWith "sip:" formatted = true \/ startsWith "sips:" formatted = true)
  /\ includes "@" formatted = true
  /\ (forall agent', formatTarget agent' formatted = Returned formatted).
Proof.
  unfold formatTarget.
  set (withScheme := if negb (startsWith "sip:" target)
                        && negb (startsWith "sips:" target)
                     then "sip:" +:+ target else target).
  assert (Hscheme : startsWith "sip:" withScheme = true
                    \/ startsWith "sips:" withScheme = true).
  { unfold withScheme.
    destruct (startsWith "sip:" target) eqn:H1; cbn [negb andb];
      [by left|].
    destruct (startsWith "sips:" target) eqn:H2; cbn [negb andb];
      [by right|].
    left. reflexivity. }
  assert (Hidem : forall f, (startsWith "sip:" f = true
                             \/ startsWith "sips:" f = true) ->
                            includes "@" f = true ->
                            forall agent',
                              (let ws := if negb (startsWith "sip:" f)
                                            && negb (startsWith "sips:" f)
                                         then "sip:" +:+ f else f in
                               if negb (includes "@" ws)
                               then match agent' with
                                    | Some a =>
                                        Returned (ws +:+ "@" +:+ registeredDomain a)
                                    | None =>
                                        Thrown (TypeError "Cannot read properties of undefined (reading 'configuration')")
                                    end
                               else Returned ws) = Returned f).
  { intros f Hf Hat agent'. cbv zeta.
    assert (Hno : negb (startsWith "sip:" f) && negb (startsWith "sips:" f)
                  = false).
    { destruct Hf as [-> | ->]; [done|]. by rewrite andb_false_r. }
    rewrite Hno, Hat. done. }
  destruct (includes "@" withScheme) eqn:Hat; simpl.
  - intros [= <-]. split; [done|]. split; [done|]. by apply Hidem.
  - destruct agent as [a|]; [|done]. intros [= <-].
    assert (Hat' : includes "@" (withScheme +:+ "@" +:+ registeredDomain a)
                   = true).
    { rewrite includes_app. change ("@" +:+ registeredDomain a)
        with (String "@" (registeredDomain a)). simpl. by rewrite orb_true_r. }
    assert (Hs' : startsWith "sip:" (withScheme +:+ "@" +:+ registeredDomain a)
                  = true
                  \/ startsWith "sips:"
                       (withScheme +:+ "@" +:+ registeredDomain a) = true).
    { destruct Hscheme as [H|H]; [left|right]; by apply startsWith_app. }
    split; [done|]. split; [done|]. by apply Hidem.
Qed.

Lemma formatTarget_normal_form_witness :
  formatTarget None "sip:bob@example.com" = Returned "sip:bob@example.com".
Proof.
  destruct (formatTarget_normal_form (Some alice) "bob" "sip:bob@example.com"
              eq_refl) as (_ & _ & H).
  apply H.
Defined.

(** X20: the targets built by the dialer, the transfer field and the
    message form never reach the registered-domain completion: the dialer's
    and the transfer field's [sip:<input>@<domain>] passes [formatTarget]
    unchanged, even without a user agent and even when the input itself
    contains an ["@"] or a scheme; the message form's target at most gets
    the [sip:] scheme put in front. *)
Theorem ui_targets_bypass_completion agent target domain :
  formatTarget agent (dialTarget target domain)
  = Returned (dialTarget target domain)
  /\ formatTarget agent (fullTarget target domain)
     = Returned (if startsWith "sip:" (fullTarget target domain)
                    || startsWith "sips:" (fullTarget target domain)
                 then fullTarget target domain
                 else "sip:" +:+ fullTarget target domain).
Proof.
  assert (Hdial : forall t d,
             formatTarget agent ("sip:" +:+ t +:+ "@" +:+ d)
             = Returned ("sip:" +:+ t +:+ "@" +:+ d)).
  { intros t d. unfold formatTarget.
    change (startsWith "sip:" ("sip:" +:+ t +:+ "@" +:+ d)) with true.
    cbn [negb andb].
    assert (Hat : includes "@" ("sip:" +:+ t +:+ "@" +:+ d) = true).
    { rewrite !includes_app. change ("@" +:+ d) with (String "@" d).
      simpl. by rewrite !orb_true_r. }
    by rewrite Hat. }
  split; [apply Hdial|].
  unfold fullTarget. destruct (includes "@" target) eqn:Hat.
  - unfold formatTarget.
    destruct (startsWith "sip:" target) eqn:H1; cbn [negb andb orb].
    { by rewrite Hat. }
    destruct (startsWith "sips:" target) eqn:H2; cbn [negb andb orb].
    { by rewrite Hat. }
    assert (Hat' : includes "@" ("sip:" +:+ target) = true).
    { rewrite includes_app, Hat. apply orb_true_r. }
    by rewrite Hat'.
  - rewrite Hdial. reflexivity.
Qed.

(** X21: the domain [formatTarget] appends is never empty and contains
    neither ["@"] nor [";"], whatever the user agent's URI looks like. *)
Theorem registeredDomain_clean agent :
  registeredDomain agent <> ""
  /\ includes "@" (registeredDomain agent) = false
  /\ includes ";" (registeredDomain agent) = false.
Proof.
  unfold registeredDomain.
  set (reg := orDefault (configurationUri agent) "").
  destruct (split "@" reg !! 1) as [piece|] eqn:Hpiece; [|by repeat split].
  rewrite head_split.
  destruct (takeUntil ";" piece) as [|a rest] eqn:Hcut; [by repeat split|].
  cbn [orDefault]. split; [done|]. rewrite <- Hcut. split.
  - apply includes_takeUntil. apply (split_pieces_clean _ reg).
    apply list_elem_of_In. by eapply list_elem_of_lookup_2.
  - apply includes_takeUntil_same.
Qed.

(** X22: when the user agent's URI is missing or has no ["@"], a bare
    target is completed with the built-in domain [jsmwebrtc.my.id]. *)
Theorem formatTarget_fallback_domain agent target :
  startsWith "sip:" target = false ->
  startsWith "sips:" target = false ->
  includes "@" target = false ->
  (configurationUri agent = None
   \/ exists uri, configurationUri agent = Some uri
                  /\ includes "@" uri = false) ->
  formatTarget (Some agent) target
  = Returned ("sip:" +:+ target +:+ "@jsmwebrtc.my.id").
Proof.
  intros Hsip Hsips Hat Huri.
  assert (Hdomain : registeredDomain agent = fallbackDomain).
  { unfold registeredDomain.
    destruct Huri as [-> | (uri & -> & Hno)]; [done|].
    assert (Hreg : includes "@" (orDefault (Some uri) "") = false)
      by (by destruct uri).
    by rewrite (split_no_separator _ _ Hreg). }
  unfold formatTarget. rewrite Hsip, Hsips. cbn [negb andb].
  rewrite includes_app, Hat. cbn. rewrite Hdomain. reflexivity.
Qed.

Lemma formatTarget_fallback_domain_witness :
  formatTarget (Some (mkUA (Some "sip:anonymous"))) "bob"
  = Returned "sip:bob@jsmwebrtc.my.id".
Proof.
  apply (formatTarget_fallback_domain (mkUA (Some "sip:anonymous")) "bob");
    try reflexivity.
  right. exists "sip:anonymous". split; reflexivity.
Defined.

(** ** User names *)

(** X23: the authorization user name [initSIP] derives from the account
    URI never contains an ["@"]. *)
Theorem extractUsername_no_at uri : includes "@" (extractUsername uri) = false.
Proof.
  unfold extractUsername.
  assert (Hrest : includes "@"
                    (if includes "@" uri
                     then match head (split "@" uri) with
                          | Some username => username
                          | None => uri
                          end
                     else uri) = false).
  { destruct (includes "@" uri) eqn:Hat; [|done].
    rewrite head_split. apply includes_takeUntil_same. }
  destruct (includes ":" uri); [|done].
  destruct (split ":" uri !! 1) as [part|]; [|done].
  destruct (includes "@" part); [|done].
  rewrite head_split. apply includes_takeUntil_same.
Qed.

Lemma append_assoc s1 s2 s3 : (s1 +:+ s2) +:+ s3 = s1 +:+ s2 +:+ s3.
Proof.
  induction s1 as [|a rest IH]; [done|]. by rewrite !append_cons, IH.
Qed.

Lemma takeUntil_at_separator c s1 s2 :
  includes c s1 = false -> takeUntil c (s1 +:+ String c s2) = s1.
Proof.
  intros H. rewrite takeUntil_app by done. simpl.
  rewrite Ascii.eqb_refl. apply append_empty.
Qed.

(** The part between the first [":"] and the first ["@"] of
    [scheme:user@rest]. *)
Lemma user_part scheme user rest :
  includes ":" scheme = false ->
  includes ":" user = false ->
  includes "@" user = false ->
  exists part,
    split ":" (scheme +:+ ":" +:+ user +:+ "@" +:+ rest) !! 1 = Some part
    /\ includes "@" part = true
    /\ head (split "@" part) = Some user.
Proof.
  intros Hscheme Hcolon Hat.
  change (":" +:+ user +:+ "@" +:+ rest)
    with (String ":" (user +:+ "@" +:+ rest)).
  rewrite split_at_first by done.
  change ((scheme :: split ":" (user +:+ "@" +:+ rest)) !! 1)
    with (split ":" (user +:+ "@" +:+ rest) !! 0).
  rewrite <- head_lookup, head_split, takeUntil_app by done.
  eexists. split; [reflexivity|].
  change ("@" +:+ rest) with (String "@" rest). simpl.
  split.
  - rewrite includes_app. simpl. apply orb_true_r.
  - rewrite head_split. f_equal. by apply takeUntil_at_separator.
Qed.

(** X24: on a URI of the shape [scheme:user@rest], where the user part is
    not empty and has neither [":"] nor ["@"], the authorization user name
    of [initSIP], the sender name shown for a received message and the
    caller name of the incoming-call dialog are all the user part.  In
    particular the registration form's [sip:<username>@jsmwebrtc.my.id]
    gives back the user name that was typed. *)
Theorem user_names_agree scheme user rest :
  includes ":" scheme = false ->
  includes ":" user = false ->
  includes "@" user = false ->
  user <> "" ->
  let uri := scheme +:+ ":" +:+ user +:+ "@" +:+ rest in
  extractUsername uri = user
  /\ fromUser uri = user
  /\ callerName uri = user
  /\ extractUsername (sipUriValue user) = user.
Proof.
  intros Hscheme Hcolon Hat Hne uri.
  destruct (user_part scheme user rest Hscheme Hcolon Hat)
    as (part & Hpart & Hin & Hhead).
  fold uri in Hpart.
  assert (Hc : includes ":" uri = true).
  { unfold uri. rewrite includes_app.
    change (":" +:+ user +:+ "@" +:+ rest)
      with (String ":" (user +:+ "@" +:+ rest)).
    simpl. apply orb_true_r. }
  assert (Ha : includes "@" uri = true).
  { unfold uri. rewrite !includes_app.
    change ("@" +:+ rest) with (String "@" rest).
    simpl. by rewrite !orb_true_r. }
  assert (Hextract : extractUsername uri = user).
  { unfold extractUsername. by rewrite Hc, Hpart, Hin, Hhead. }
  assert (Hfrom : orDefault
                    (match split ":" uri !! 1 with
                     | Some part => head (split "@" part)
                     | None => None
                     end) uri = user).
  { rewrite Hpart, Hhead. by destruct user. }
  split; [exact Hextract|]. split; [exact Hfrom|].
  split; [unfold callerName; by rewrite Ha|].
  unfold sipUriValue.
  destruct (user_part "sip" user "jsmwebrtc.my.id" eq_refl Hcolon Hat)
    as (part' & Hpart' & Hin' & Hhead').
  unfold extractUsername.
  change ("sip:" +:+ user +:+ "@" +:+ "jsmwebrtc.my.id")
    with ("sip" +:+ ":" +:+ user +:+ "@" +:+ "jsmwebrtc.my.id").
  assert (Hc' : includes ":"
                  ("sip" +:+ ":" +:+ user +:+ "@" +:+ "jsmwebrtc.my.id")
                = true) by reflexivity.
  by rewrite Hc', Hpart', Hin', Hhead'.
Qed.

Lemma user_names_agree_witness :
  extractUsername "sip:alice@example.com;transport=ws" = "alice"
  /\ fromUser "sip:alice@example.com;transport=ws" = "alice".
Proof.
  destruct (user_names_agree "sip" "alice" "example.com;transport=ws")
    as (H1 & H2 & _); try reflexivity; [discriminate|].
  split; [exact H1 | exact H2].
Defined.

(** X25: a [":"] in the user part defeats the extraction: for
    [sip:<a>:<b>@<host>] the authorization user name is the whole text in
    front of the ["@"], scheme included, not the user part. *)
Theorem extractUsername_keeps_scheme a b host :
  includes ":" a = false ->
  includes "@" a = false ->
  includes "@" b = false ->
  extractUsername ("sip:" +:+ a +:+ ":" +:+ b +:+ "@" +:+ host)
  = "sip:" +:+ a +:+ ":" +:+ b.
Proof.
  intros Hcolon Hata Hatb. unfold extractUsername.
  set (uri := "sip:" +:+ a +:+ ":" +:+ b +:+ "@" +:+ host).
  assert (Hc : includes ":" uri = true) by reflexivity.
  assert (Hpart : split ":" uri !! 1 = Some a).
  { unfold uri.
    change ("sip:" +:+ a +:+ ":" +:+ b +:+ "@" +:+ host)
      with ("sip" +:+ String ":" (a +:+ String ":" (b +:+ "@" +:+ host))).
    rewrite split_at_first by reflexivity.
    change (("sip" :: split ":" (a +:+ String ":" (b +:+ "@" +:+ host))) !! 1)
      with (split ":" (a +:+ String ":" (b +:+ "@" +:+ host)) !! 0).
    rewrite <- head_lookup, head_split. f_equal.
    by apply takeUntil_at_separator. }
  assert (Ha : includes "@" uri = true).
  { unfold uri. rewrite !includes_app.
    change ("@" +:+ host) with (String "@" host). simpl.
    by rewrite !orb_true_r. }
  rewrite Hc, Hpart, Hata, Ha, head_split.
  assert (Huri : uri = ("sip:" +:+ a +:+ ":" +:+ b) +:+ String "@" host)
    by (unfold uri; by rewrite !append_assoc).
  rewrite Huri, takeUntil_at_separator; [done|].
  rewrite !includes_app, Hata, Hatb. reflexivity.
Qed.

Lemma extractUsername_keeps_scheme_witness :
  extractUsername "sip:alice:secret@example.com" = "sip:alice:secret".
Proof.
  apply (extractUsername_keeps_scheme "alice" "secret" "example.com");
    reflexivity.
Defined.

(** ** Registration: bookkeeping of the promise *)

Ltac use_reflexive_premises :=
  repeat match goal with
         | H : ?x = ?x -> _ |- _ => specialize (H eq_refl)
         | H : Some ?x <> None -> _ |- _ =>
             specialize (H ltac:(discriminate))
         end.

Lemma coherent_initSIP notify failure now :
  coherent (initSIP notify failure now)
  /\ onRegistrationFailed (initSIP notify failure now) = notify.
Proof.
  unfold coherent. destruct failure as [error|]; simpl.
  - destruct notify; simpl; repeat split; try done.
  - repeat split; try done.
Qed.

Lemma coherent_step ev st :
  coherent st ->
  coherent (step ev st)
  /\ onRegistrationFailed (step ev st) = onRegistrationFailed st.
Proof.
  destruct st as [notify settled handle timer p notices starting listens now].
  unfold coherent. simpl. intros (Hp & Hs & Hn & Ht & Hh & Hst & Hl).
  destruct ev as [|error|s|ms]; simpl.
  - destruct starting; simpl; [|by intuition].
    use_reflexive_premises. destruct Hst as [-> ->]. use_reflexive_premises.
    subst. intuition discriminate.
  - destruct starting; simpl; [|by intuition].
    use_reflexive_premises. destruct Hst as [-> ->]. use_reflexive_premises.
    subst. unfold safeReject, clearRegistrationTimeout. simpl.
    destruct handle, notify; simpl; intuition discriminate.
  - destruct listens; simpl; [|by intuition].
    use_reflexive_premises. subst starting.
    destruct s; simpl; try (by intuition);
      unfold safeResolve, safeReject, clearRegistrationTimeout; simpl;
      destruct settled; simpl; try (by intuition);
      use_reflexive_premises; subst;
      destruct handle, timer, notify; simpl; use_reflexive_premises;
      intuition discriminate.
  - destruct timer as [deadline|]; simpl; [|by intuition].
    use_reflexive_premises. subst handle.
    destruct (deadline <=? now + ms)%N; simpl; [|by intuition].
    unfold onTimeout, safeReject, clearRegistrationTimeout. simpl.
    destruct settled; simpl; use_reflexive_premises; [done|].
    subst. destruct starting; [by destruct Hst|].
    destruct notify; simpl; intuition discriminate.
Qed.

Lemma coherent_run evs : forall st,
  coherent st ->
  coherent (run evs st)
  /\ onRegistrationFailed (run evs st) = onRegistrationFailed st.
Proof.
  induction evs as [|ev evs IH]; intros st Hinv; [done|].
  rewrite run_cons. destruct (coherent_step ev st Hinv) as [Hinv' Hn].
  destruct (IH _ Hinv') as [Hinv'' Hn']. split; [done|]. by rewrite Hn', Hn.
Qed.

(** X26: whatever the user agent, the registerer and the clock deliver, the
    [onRegistrationFailed] callback has been called exactly once, with the
    error the promise was rejected with, if the promise is rejected and a
    callback was given; it has not been called while the promise is pending
    nor once it is resolved, so a registration lost after success is not
    reported through it. *)
Theorem initSIP_failure_callback_once notify failure now evs :
  failureNotices (run evs (initSIP notify failure now))
  = match promise (run evs (initSIP notify failure now)) with
    | Rejected error => if notify then [error] else []
    | _ => []
    end.
Proof.
  destruct (coherent_initSIP notify failure now) as [Hinit Hnotify].
  destruct (coherent_run evs _ Hinit) as [(_ & _ & Hn & _) Hsame].
  rewrite Hn, Hsame, Hnotify. reflexivity.
Qed.

(** X27: once the promise has settled no registration timer is left in the
    timer queue, and the settlement flag and the promise agree: the flag is
    set exactly when the promise is no longer pending. *)
Theorem initSIP_timer_cleared_on_settlement notify failure now evs :
  let st := run evs (initSIP notify failure now) in
  (promise st <> Pending -> scheduledTimer st = None)
  /\ (isPromiseSettled st = true <-> promise st <> Pending).
Proof.
  destruct (coherent_initSIP notify failure now) as [Hinit _].
  destruct (coherent_run evs _ Hinit) as [(Hp & Hs & _ & Ht & _) _].
  cbv zeta.
  destruct (isPromiseSettled (run evs (initSIP notify failure now))) eqn:Hset.
  - split; [intros _; by apply Ht|]. split; [intros _; by apply Hs|done].
  - rewrite (Hp eq_refl). split; [done|]. split; [discriminate|done].
Qed.

Lemma initSIP_timer_cleared_on_settlement_witness :
  scheduledTimer
    (run [StartResolved; TimeElapses 2000; StateChange Registered]
       (initSIP true None 0)) = None.
Proof.
  destruct (initSIP_timer_cleared_on_settlement true None 0%N
              [StartResolved; TimeElapses 2000; StateChange Registered])
    as [H _].
  apply H. discriminate.
Defined.

(** X28: failures before registration starts are final and carry their own
    error: when [new UserAgent] or [ua.start()] throws, the promise is
    rejected with what was thrown, and when the promise of [ua.start()]
    rejects, whatever time has passed, it is rejected with that rejection;
    in both cases no later event changes the outcome. *)
Theorem initSIP_start_failures notify now error lead later :
  forallb isQuiet lead = true ->
  promise (run later (initSIP notify (Some error) now)) = Rejected error
  /\ promise (run (lead ++ StartRejected error :: later)
                (initSIP notify None now))
     = Rejected error.
Proof.
  intros Hlead. split.
  - rewrite run_settled; reflexivity.
  - rewrite run_app, run_cons, run_quiet_before_start by done.
    rewrite run_settled; [reflexivity|]. reflexivity.
Qed.

Lemma initSIP_start_failures_witness :
  promise (run ([TimeElapses 15000] ++ StartRejected (Error "WebSocket closed")
                  :: [StateChange Registered])
             (initSIP true None 0))
  = Rejected (Error "WebSocket closed").
Proof.
  destruct (initSIP_start_failures true 0%N (Error "WebSocket closed")
              [TimeElapses 15000] [StateChange Registered] eq_refl)
    as [_ H].
  exact H.
Defined.

(** ** Call durations on screen *)

Lemma countChar_app c s1 s2 :
  countChar c (s1 +:+ s2) = countChar c s1 + countChar c s2.
Proof.
  induction s1 as [|a rest IH]; [done|].
  rewrite append_cons. simpl. rewrite IH. lia.
Qed.

Lemma pretty_N_char_no_colon x : Ascii.eqb (pretty_N_char x) ":" = false.
Proof. unfold pretty_N_char. by repeat case_match. Qed.

Lemma pretty_N_go_colons x : forall s,
  countChar ":" (pretty_N_go x s) = countChar ":" s.
Proof.
  induction (N.lt_wf_0 x) as [x _ IH]; intros s.
  destruct (decide (x = 0)%N) as [->|Hx]; [by rewrite pretty_N_go_0|].
  rewrite pretty_N_go_step by lia.
  rewrite IH by (apply N.div_lt; lia).
  simpl. by rewrite pretty_N_char_no_colon.
Qed.

Lemma pretty_N_colons (x : N) : countChar ":" (pretty x) = 0.
Proof.
  unfold pretty, pretty_N. destruct (decide (x = 0)%N); [done|].
  apply pretty_N_go_colons.
Qed.

Lemma padStart2_colons s : countChar ":" (padStart2 s) = countChar ":" s.
Proof.
  unfold padStart2. destruct s as [|a [|b rest]]; reflexivity.
Qed.

Lemma field_colons (x : N) : countChar ":" (padStart2 (pretty x)) = 0.
Proof. by rewrite padStart2_colons, pretty_N_colons. Qed.

(** X29: the call timer of the control panel and the one of the video panel
    show the same text exactly during the first hour of a call: from 3600
    seconds on the control panel switches to hours, minutes and seconds
    while the video panel keeps counting minutes. *)
Theorem call_timers_agree_during_first_hour (seconds : N) :
  CallControls.formatDuration seconds = VideoPanel.formatDuration seconds
  <-> (seconds < 3600)%N.
Proof.
  unfold CallControls.formatDuration, VideoPanel.formatDuration.
  destruct (N.ltb_spec 0 (seconds / 3600)) as [Hhour|Hnone]; cbn [omap].
  - split.
    + intros Heq. apply (f_equal (countChar ":")) in Heq.
      cbn [list_omap id joinColon] in Heq.
      rewrite !countChar_app, !field_colons in Heq. simpl in Heq.
      discriminate Heq.
    + intros Hlt. rewrite N.div_small in Hhour by done.
      by apply N.lt_irrefl in Hhour.
  - assert (Hzero : (seconds / 3600 = 0)%N) by (by apply N.le_0_r).
    assert (Hlt : (seconds < 3600)%N).
    { apply N.div_small_iff in Hzero; [done|lia]. }
    split; [done|]. intros _.
    rewrite (N.mod_small seconds 3600) by done. reflexivity.
Qed.

Lemma call_timers_agree_during_first_hour_witness :
  CallControls.formatDuration 3599 = VideoPanel.formatDuration 3599
  /\ CallControls.formatDuration 3600 <> VideoPanel.formatDuration 3600.
Proof.
  split.
  - apply (call_timers_agree_during_first_hour 3599). reflexivity.
  - intros H. apply (call_timers_agree_during_first_hour 3600) in H.
    vm_compute in H. discriminate H.
Defined.

(** ** The transfer field of the control panel *)

(** X30: the transfer field of the control panel refers the active call to
    exactly [sip:<input>@<domain>]: on an outbound session the refer is sent
    when that text parses and nothing is sent when it does not; on an
    answered invitation the transfer always fails; an empty field does
    nothing.  The registered user agent plays no part. *)
Theorem handleTransfer_outcomes env transferTarget domain w sid session :
  currentSession w = Some sid ->
  sessions w !! sid = Some session ->
  CallControls.handleTransfer env "" domain w = None
  /\ (transferTarget <> "" ->
      CallControls.handleTransfer env transferTarget domain w
      = Some match sessionClass session with
             | Invitation => (false, [])
             | Inviter =>
                 if uriGrammar env (dialTarget transferTarget domain)
                 then (true,
                       [ReferTo sid (mkURI (dialTarget transferTarget domain))])
                 else (false, [])
             end).
Proof.
  intros Hcur Hs. split; [done|]. intros Hne.
  unfold CallControls.handleTransfer.
  destruct transferTarget as [|a rest]; [done|]. f_equal.
  unfold transferCall. rewrite Hcur, Hs.
  destruct (sessionClass session); [|done].
  destruct (ui_targets_bypass_completion (ua w) (String a rest) domain)
    as [Hsame _].
  unfold dialTarget in *. rewrite Hsame. unfold makeURI.
  by destruct (uriGrammar env _).
Qed.

Lemma handleTransfer_outcomes_witness :
  CallControls.handleTransfer grantingEnv "carol" "example.org" sampleCall
  = Some (true, [ReferTo 0 (mkURI "sip:carol@example.org")]).
Proof.
  destruct (handleTransfer_outcomes grantingEnv "carol" "example.org"
              sampleCall 0
              (mkSession Inviter Established (Some (mkSDH (Some samplePC))) [])
              eq_refl eq_refl) as [_ H].
  apply H. discriminate.
Defined.
